(** * The SLADE console (src/Console.cpp): commands, cvars and dispatch

    A shallow embedding of [Console::addCommand], [Console::execute],
    [Console::logMessage], the log accessors, [Console::command],
    [ConsoleCommand::execute] and the built-in console commands, followed by
    the properties of the dispatcher. *)

From Stdlib Require Import ZArith String Ascii List Bool Lia.
From Stdlib Require Import Decimal DecimalString DecimalPos DecimalZ.
From Stdlib Require Import OrdersEx Sorted Permutation SpecFloat.
From stdpp Require Import gmap strings list.

Local Open Scope string_scope.
Local Open Scope Z_scope.

(** ** Characters and strings *)

(** The two characters that cannot be written inside a literal. *)
Definition dquote : string := String (ascii_of_nat 34) EmptyString.
Definition newline : ascii := ascii_of_nat 10.

Definition code (c : ascii) : Z := Z.of_N (N_of_ascii c).

(** [wxString::Last]: the last character; there is none in an empty string. *)
Fixpoint Last (s : string) : option ascii :=
  match s with
  | EmptyString => None
  | String c EmptyString => Some c
  | String _ s' => Last s'
  end.

(** ** Floating-point values *)

(** A C [double]: a value of [spec_float] (a number, a zero, an infinity or
    the NaN with the sign bit clear), or the NaN with the sign bit set,
    which [spec_float] does not tell from the other and the C library
    prints with a sign. *)
Inductive double :=
| Num (x : spec_float)
| NegNaN.

Coercion Num : spec_float >-> double.

(** ** The C library functions the console calls *)

Module CLib.

(** The target is a 32-bit ARM board: [int] and [long] are both 32 bits. *)
Definition INT_MIN : Z := - 2 ^ 31.
Definition INT_MAX : Z := 2 ^ 31 - 1.

(** Conversion to [int]: two's complement wrap-around. *)
Definition to_int (z : Z) : Z := (z + 2 ^ 31) mod 2 ^ 32 - 2 ^ 31.

Definition clamp (lo hi z : Z) : Z := Z.max lo (Z.min hi z).

Definition isspace (c : ascii) : bool :=
  let n := code c in (n =? 32) || ((9 <=? n) && (n <=? 13)).

Definition digit_of (c : ascii) : option Z :=
  let n := code c in
  if (48 <=? n) && (n <=? 57) then Some (n - 48) else None.

Fixpoint skip_space (s : string) : string :=
  match s with
  | String c s' => if isspace c then skip_space s' else s
  | EmptyString => s
  end.

Definition read_sign (s : string) : bool * string :=
  match s with
  | String c s' =>
      if Ascii.eqb c "-" then (true, s')
      else if Ascii.eqb c "+" then (false, s')
      else (false, s)
  | EmptyString => (false, s)
  end.

(** The longest run of decimal digits at the head of [s], accumulated on
    [acc]; also the number of digits read and the rest of the string. *)
Fixpoint read_digits (s : string) (acc : Z) (n : nat) : Z * nat * string :=
  match s with
  | String c s' =>
      match digit_of c with
      | Some d => read_digits s' (10 * acc + d) (S n)
      | None => (acc, n, s)
      end
  | EmptyString => (acc, n, s)
  end.

(** [strtol(s, NULL, 10)]: white space, an optional sign, digits; the value
    saturates at the bounds of [long]; no digits give 0. *)
Definition strtol (s : string) : Z :=
  let '(neg, s1) := read_sign (skip_space s) in
  let '(v, _, _) := read_digits s1 0 0 in
  clamp INT_MIN INT_MAX (if neg then - v else v).

(** [atoi(s)] is [(int) strtol(s, NULL, 10)]. *)
Definition atoi (s : string) : Z := to_int (strtol s).


(** [printf("%d")]: signed decimal without leading zeros. *)
Definition fmt_d (z : Z) : string := NilZero.string_of_int (Z.to_int z).

(** *** Floating point

    The numbers of a [double] are the [spec_float] of the binary64 format,
    those of a [float] the ones of the binary32 format. *)

(** The representations of the [double] format. *)
Definition valid (x : double) : bool :=
  match x with
  | Num y => valid_binary 53 1024 y
  | NegNaN => true
  end.

Definition double_of (s : bool) (m : positive) (e : Z) : spec_float :=
  binary_round 53 1024 s m e.

(** The cast [(float) x], and the value of the result as a [double] again.
    A NaN keeps its sign. *)
Definition to_float (x : double) : double :=
  match x with
  | Num (S754_finite s m e) =>
      match binary_round 24 128 s m e with
      | S754_finite s' m' e' => Num (double_of s' m' e')
      | y => Num y
      end
  | _ => x
  end.

Definition sign_text (s : bool) : string := if s then "-" else EmptyString.

Definition digit_char (d : Z) : ascii := ascii_of_N (Z.to_N (48 + d)).

(** [m * 2^e * 10^digits] rounded to the nearest integer, ties to even. *)
Definition scaled_round (digits : Z) (m : positive) (e : Z) : Z :=
  let num := Z.pos m * 10 ^ digits in
  if 0 <=? e then num * 2 ^ e
  else
    let den := 2 ^ (- e) in
    let q := num / den in
    let r := num mod den in
    match 2 * r ?= den with
    | Lt => q
    | Gt => q + 1
    | Eq => if Z.even q then q else q + 1
    end.

Definition pad4 (v : Z) : string :=
  String (digit_char (v / 1000 mod 10))
    (String (digit_char (v / 100 mod 10))
       (String (digit_char (v / 10 mod 10))
          (String (digit_char (v mod 10)) EmptyString))).

(** [printf("%1.4f")]: fixed notation with four decimals; an infinity and
    a NaN are printed by name, with the sign when the sign bit is set. *)
Definition fmt_f4 (x : double) : string :=
  match x with
  | Num (S754_zero s) => sign_text s ++ "0.0000"
  | Num (S754_infinity s) => sign_text s ++ "inf"
  | Num S754_nan => "nan"
  | NegNaN => "-nan"
  | Num (S754_finite s m e) =>
      let n := scaled_round 4 m e in
      sign_text s ++ fmt_d (n / 10000) ++ "." ++ pad4 (n mod 10000)
  end.

Definition lower (c : ascii) : ascii :=
  let n := code c in
  if (65 <=? n) && (n <=? 90) then ascii_of_N (Z.to_N (n + 32)) else c.

(** Does [s] start with [p], letter case ignored? *)
Fixpoint starts_nocase (p s : string) : bool :=
  match p, s with
  | EmptyString, _ => true
  | String a p', String b s' => Ascii.eqb a (lower b) && starts_nocase p' s'
  | String _ _, EmptyString => false
  end.

Definition hex_digit_of (c : ascii) : option Z :=
  let n := code (lower c) in
  if (48 <=? n) && (n <=? 57) then Some (n - 48)
  else if (97 <=? n) && (n <=? 102) then Some (n - 87)
  else None.

Fixpoint read_hex_digits (s : string) (acc : Z) (n : nat) : Z * nat * string :=
  match s with
  | String c s' =>
      match hex_digit_of c with
      | Some d => read_hex_digits s' (16 * acc + d) (S n)
      | None => (acc, n, s)
      end
  | EmptyString => (acc, n, s)
  end.

(** The exponent part of a constant: the letter ([e] for a decimal constant,
    [p] for a hexadecimal one) in either case, an optional sign and at least
    one decimal digit; anything else is no exponent. *)
Definition read_exponent (letter : ascii) (s : string) : Z :=
  match s with
  | String c s' =>
      if Ascii.eqb (lower c) letter then
        let '(neg, s1) := read_sign s' in
        let '(v, n, _) := read_digits s1 0 0 in
        match n with
        | O => 0
        | S _ => if neg then - v else v
        end
      else 0
  | EmptyString => 0
  end.

(** The nearest [double] to [(-1)^s * n * 10^e10]. *)
Definition decimal_to_double (s : bool) (n : Z) (e10 : Z) : spec_float :=
  match n with
  | Z.pos p =>
      if 0 <=? e10 then double_of s (p * Z.to_pos (10 ^ e10)) 0
      else
        SFdiv 53 1024 (S754_finite s p 0)
          (S754_finite false (Z.to_pos (10 ^ (- e10))) 0)
  | _ => S754_zero s
  end.

(** The nearest [double] to [(-1)^s * n * 2^e2]. *)
Definition binary_to_double (s : bool) (n : Z) (e2 : Z) : spec_float :=
  match n with
  | Z.pos p => double_of s p e2
  | _ => S754_zero s
  end.

(** A decimal constant: digits with an optional fraction and exponent. With
    no digit at all there is no number and the result is 0. *)
Definition atof_decimal (neg : bool) (s : string) : spec_float :=
  let '(ip, ni, s2) := read_digits s 0 0 in
  let '(v, nf, s3) :=
    match s2 with
    | String c s2' =>
        if Ascii.eqb c "." then read_digits s2' ip 0 else (ip, O, s2)
    | EmptyString => (ip, O, s2)
    end in
  match (ni + nf)%nat with
  | O => S754_zero false
  | S _ => decimal_to_double neg v (read_exponent "e" s3 - Z.of_nat nf)
  end.

(** What follows [0x] in a hexadecimal constant: hexadecimal digits with an
    optional fraction and binary exponent; [None] when no digit follows. *)
Definition atof_hex (neg : bool) (s : string) : option spec_float :=
  let '(ip, ni, s2) := read_hex_digits s 0 0 in
  let '(v, nf, s3) :=
    match s2 with
    | String c s2' =>
        if Ascii.eqb c "." then read_hex_digits s2' ip 0 else (ip, O, s2)
    | EmptyString => (ip, O, s2)
    end in
  match (ni + nf)%nat with
  | O => None
  | S _ => Some (binary_to_double neg v (read_exponent "p" s3 - 4 * Z.of_nat nf))
  end.

(** [atof(s)], that is [strtod(s, NULL)]: white space, an optional sign,
    then [inf], [nan], a hexadecimal or a decimal constant. The sign goes
    into the sign bit, of a NaN too. A string that starts with no number
    gives 0. *)
Definition atof (s : string) : double :=
  let '(neg, s1) := read_sign (skip_space s) in
  if starts_nocase "inf" s1 then Num (S754_infinity neg)
  else if starts_nocase "nan" s1 then (if neg then NegNaN else Num S754_nan)
  else if starts_nocase "0x" s1 then
    match atof_hex neg (String.substring 2 (String.length s1 - 2) s1) with
    | Some x => Num x
    | None => Num (atof_decimal neg s1)
    end
  else Num (atof_decimal neg s1).

End CLib.


(** ** Console variables *)

(** The type tags [Console::execute] tests. *)
Inductive CVarType := CVAR_BOOLEAN | CVAR_INTEGER | CVAR_FLOAT | CVAR_STRING.

(** Modelled from the spec: the cvar classes of CVar.h, a typed value with
    its flags. There is one constructor per class; the class fixes the type
    tag, so a value always has the representation of its tag. A Float cvar
    holds a [double]. *)
Inductive CVar :=
| CBoolCVar (flags : N) (value : bool)
| CIntCVar (flags : N) (value : Z)
| CFloatCVar (flags : N) (value : double)
| CStringCVar (flags : N) (value : string).

Definition type (cvar : CVar) : CVarType :=
  match cvar with
  | CBoolCVar _ _ => CVAR_BOOLEAN
  | CIntCVar _ _ => CVAR_INTEGER
  | CFloatCVar _ _ => CVAR_FLOAT
  | CStringCVar _ _ => CVAR_STRING
  end.

Definition flags (cvar : CVar) : N :=
  match cvar with
  | CBoolCVar f _ | CIntCVar f _ | CFloatCVar f _ | CStringCVar f _ => f
  end.

(** The assignment of the first argument to a cvar in [Console::execute]
    (lines 117-128): what [setFromString] is in the code. *)
Definition assign (cvar : CVar) (arg : string) : CVar :=
  match cvar with
  | CBoolCVar f _ =>
      if String.eqb arg "0" || String.eqb arg "false"
      then CBoolCVar f false
      else CBoolCVar f true
  | CIntCVar f _ => CIntCVar f (CLib.atoi arg)
  | CFloatCVar f _ => CFloatCVar f (CLib.to_float (CLib.atof arg))
  | CStringCVar f _ => CStringCVar f arg
  end.

(** The text of a cvar's value in [Console::execute] (lines 132-144): what
    [formatToString] is in the code. *)
Definition format (cvar : CVar) : string :=
  match cvar with
  | CBoolCVar _ b => if b then "true" else "false"
  | CIntCVar _ i => CLib.fmt_d i
  | CFloatCVar _ x => CLib.fmt_f4 x
  | CStringCVar _ s => s
  end.

(** The values a cvar can hold: an [int] for an Integer cvar, a [double]
    for a Float cvar. *)
Definition well_formed (cvar : CVar) : Prop :=
  match cvar with
  | CIntCVar _ i => CLib.INT_MIN <= i <= CLib.INT_MAX
  | CFloatCVar _ x => CLib.valid x = true
  | _ => True
  end.

(** ** The console and the state around it *)

(** A command: its name, the address of its handler and the least number of
    arguments (a [size_t]). *)
Record ConsoleCommand (fptr : Type) := {
  name : string;
  commandFunc : fptr;
  min_args : Z
}.
Arguments name {fptr} _.
Arguments commandFunc {fptr} _.
Arguments min_args {fptr} _.

(** The console: the transcript [log] (newest last), the registry
    [commands] and the history [cmd_log] (newest first). *)
Record Console (fptr : Type) := {
  log : list string;
  commands : list (ConsoleCommand fptr);
  cmd_log : list string
}.
Arguments log {fptr} _.
Arguments commands {fptr} _.
Arguments cmd_log {fptr} _.

(** What the dispatcher itself did, for the statements below: the handlers
    it called and the variable names it looked up. *)
Inductive Probe (fptr : Type) :=
| CallHandler (f : fptr) (args : list string)
| LookupCVar (cvar_name : string).
Arguments CallHandler {fptr} _ _.
Arguments LookupCVar {fptr} _.

(** The state of the process as the console sees it: the console singleton,
    the cvar store, the format strings given to [wxLogMessage] (each call
    has the format and no further argument), the events announced
    to the listeners, and the record of the dispatcher's own steps. *)
Record World (fptr : Type) := {
  theConsole : Console fptr;
  cvars : gmap string CVar;
  wx_log : list string;
  announced : list string;
  probes : list (Probe fptr)
}.
Arguments theConsole {fptr} _.
Arguments cvars {fptr} _.
Arguments wx_log {fptr} _.
Arguments announced {fptr} _.
Arguments probes {fptr} _.

(** [std::sort] with [operator<]: insertion sort, which is what the library
    runs on a short vector; equal elements keep their order. The properties
    below use that the result is sorted and has the same elements. *)
Fixpoint insert_sorted {A} (lt : A -> A -> bool) (x : A) (l : list A) : list A :=
  match l with
  | [] => [x]
  | y :: l' => if lt y x then y :: insert_sorted lt x l' else x :: l
  end.

Fixpoint sort {A} (lt : A -> A -> bool) (l : list A) : list A :=
  match l with
  | [] => []
  | x :: l' => insert_sorted lt x (sort lt l')
  end.

(** In the sorted vector [x] may stand before [y]: [y < x] does not hold. *)
Definition before {A} (lt : A -> A -> bool) (x y : A) : Prop := lt y x = false.

(** The tokenizer object: the tokens not yet read. [getToken] gives the next
    one, and the empty string when none is left. *)
Definition Tokenizer : Type := list string.

Definition getToken (tz : Tokenizer) : string * Tokenizer :=
  match tz with
  | [] => (EmptyString, [])
  | t :: tz' => (t, tz')
  end.

(** Conversion to [size_t]. *)
Definition to_size_t (z : Z) : Z := z mod 2 ^ 32.

Section ConsoleOps.

Context {fptr : Type}.

(** The code behind a handler address: what calling [f] with [args] does. *)
Variable call : fptr -> list string -> World fptr -> World fptr.

(** Modelled from the spec: the Tokenizer class (Tokenizer.h) gives the
    ordered sequence of the tokens of a line. *)
Variable tokenize : string -> list string.

Definition openString (text : string) : Tokenizer := tokenize text.

(** *** State updates *)

Definition set_console (con : Console fptr) (w : World fptr) : World fptr :=
  {| theConsole := con; cvars := cvars w; wx_log := wx_log w;
     announced := announced w; probes := probes w |}.

Definition set_cvars (m : gmap string CVar) (w : World fptr) : World fptr :=
  {| theConsole := theConsole w; cvars := m; wx_log := wx_log w;
     announced := announced w; probes := probes w |}.

Definition set_probes (p : list (Probe fptr)) (w : World fptr) : World fptr :=
  {| theConsole := theConsole w; cvars := cvars w; wx_log := wx_log w;
     announced := announced w; probes := p |}.

Definition probe (p : Probe fptr) (w : World fptr) : World fptr :=
  set_probes (probes w ++ [p]) w.

(** [wxLogMessage] called with [line] as its format string and no further
    argument: the call is recorded with that format string. What the log
    target prints is the format expanded, which is [line] itself when it
    has no [%]. *)
Definition wxLogMessage (line : string) (w : World fptr) : World fptr :=
  {| theConsole := theConsole w; cvars := cvars w;
     wx_log := wx_log w ++ [line];
     announced := announced w; probes := probes w |}.

(** Modelled from the spec: [Announcer::announce] tells the listeners the
    name of the event; the payload is empty. *)
Definition announce (event : string) (w : World fptr) : World fptr :=
  {| theConsole := theConsole w; cvars := cvars w; wx_log := wx_log w;
     announced := announced w ++ [event]; probes := probes w |}.

(** *** The registry *)

(** Modelled from the spec: [ConsoleCommand::operator<] (Console.h) compares
    the names, ordinal comparison. *)
Definition command_lt (a b : ConsoleCommand fptr) : bool :=
  String.ltb (name a) (name b).

(** [Console::addCommand] *)
Definition addCommand (c : ConsoleCommand fptr) (con : Console fptr)
  : Console fptr :=
  {| log := log con;
     commands := sort command_lt (commands con ++ [c]);
     cmd_log := cmd_log con |}.

(** [ConsoleCommand::ConsoleCommand]: the new command adds itself to the
    console. *)
Definition ConsoleCommand_new (name : string) (commandFunc : fptr)
    (min_args : Z) (w : World fptr) : World fptr :=
  set_console
    (addCommand {| name := name; commandFunc := commandFunc;
                   min_args := to_size_t min_args |} (theConsole w)) w.

(** [Console::numCommands] *)
Definition numCommands (con : Console fptr) : Z :=
  CLib.to_int (Z.of_nat (length (commands con))).

(** [Console::command]. The element 0 of an empty vector does not exist:
    the result is [None] there. *)
Definition command (index : nat) (con : Console fptr)
  : option (ConsoleCommand fptr) :=
  if (index <? length (commands con))%nat
  then commands con !! index
  else commands con !! 0%nat.

(** *** The transcript and the history *)

(** [Console::logMessage]. The code asks for the last character of the
    message without a test; the empty message has none and the call has no
    defined result there. The entry written for it here (the newline alone)
    is a convention, and the statements about [logMessage] below are about
    messages that are not empty. *)
Definition logMessage (message : string) (w : World fptr) : World fptr :=
  let message :=
    match Last message with
    | Some c => if Ascii.eqb c newline then message
                else message ++ String newline EmptyString
    | None => message ++ String newline EmptyString
    end in
  let con := theConsole w in
  announce "console_logmessage"
    (set_console {| log := log con ++ [message];
                    commands := commands con;
                    cmd_log := cmd_log con |} w).

(** [Console::lastLogLine] *)
Definition lastLogLine (con : Console fptr) : string :=
  if (0 <? length (log con))%nat then List.last (log con) EmptyString
  else EmptyString.

(** [Console::lastCommand] *)
Definition lastCommand (con : Console fptr) : string :=
  if (0 <? length (cmd_log con))%nat then List.last (cmd_log con) EmptyString
  else EmptyString.

(** [Console::dumpLog] *)
Definition dumpLog (con : Console fptr) : string :=
  fold_left String.append (log con) EmptyString.

(** [Console::prevCommand] *)
Definition prevCommand (index : Z) (con : Console fptr) : string :=
  if (index <? 0) || (Z.of_nat (length (cmd_log con)) <=? to_size_t index)
  then EmptyString
  else default EmptyString (cmd_log con !! Z.to_nat index).

(** *** Dispatch *)

(** [ConsoleCommand::execute]. The call is recorded; what the handler does
    to the state is the handler's, the record stays the dispatcher's. *)
Definition ConsoleCommand_execute (c : ConsoleCommand fptr)
    (args : list string) (w : World fptr) : World fptr :=
  if min_args c <=? Z.of_nat (length args) then
    set_probes (probes w ++ [CallHandler (commandFunc c) args])
      (call (commandFunc c) args w)
  else logMessage "Missing command arguments" w.

(** Modelled from the spec: [get_cvar] (CVar.cpp) looks a variable up by its
    name in the store and has no other effect. The lookup is recorded. *)
Definition get_cvar (cvar_name : string) (w : World fptr)
  : option CVar * World fptr :=
  (cvars w !! cvar_name, probe (LookupCVar cvar_name) w).

(** The loop of [Console::execute] that collects the arguments: tokens are
    read until the empty one. When the tokenizer has no token left the next
    one is empty and the loop ends. *)
Fixpoint read_args (arg : string) (tz : Tokenizer) : list string :=
  match arg with
  | EmptyString => []
  | _ => arg :: match tz with
                | [] => []
                | t :: tz' => read_args t tz'
                end
  end.

(** The loop of [Console::execute] over the registry: the first command of
    that name. *)
Fixpoint find_command (cmd_name : string) (cs : list (ConsoleCommand fptr))
  : option (ConsoleCommand fptr) :=
  match cs with
  | [] => None
  | c :: cs' => if String.eqb (name c) cmd_name then Some c
                else find_command cmd_name cs'
  end.

(** [Console::execute] *)
Definition execute (command : string) (w : World fptr) : World fptr :=
  let w := wxLogMessage ("> " ++ command) w in
  if (String.length command =? 0)%nat then w
  else
    let con := theConsole w in
    let w := set_console {| log := log con; commands := commands con;
                            cmd_log := command :: cmd_log con |} w in
    let w := announce "console_execute" w in
    let tz := openString command in
    let '(cmd_name, tz) := getToken tz in
    let '(arg, tz) := getToken tz in
    let args := read_args arg tz in
    match find_command cmd_name (commands (theConsole w)) with
    | Some c => ConsoleCommand_execute c args w
    | None =>
        let '(cvar, w) := get_cvar cmd_name w in
        match cvar with
        | Some cvar =>
            let '(cvar, w) :=
              match args with
              | arg0 :: _ =>
                  let cvar' := assign cvar arg0 in
                  (cvar', set_cvars (<[cmd_name := cvar']> (cvars w)) w)
              | [] => (cvar, w)
              end in
            let value := format cvar in
            logMessage (dquote ++ cmd_name ++ dquote ++ " = " ++ dquote
                        ++ value ++ dquote) w
        | None =>
            logMessage ("Unknown command: " ++ dquote ++ cmd_name ++ dquote) w
        end
    end.

(** *** The steps of [execute], named for the statements

    The command name and the arguments read in a line, the state when the
    registry is searched, and the state when the variable store has been
    asked. *)
Definition cmd_name_of (command : string) : string :=
  fst (getToken (openString command)).

Definition args_of (command : string) : list string :=
  let '(_, tz) := getToken (openString command) in
  let '(arg, tz) := getToken tz in
  read_args arg tz.

Definition entered (command : string) (w : World fptr) : World fptr :=
  let w := wxLogMessage ("> " ++ command) w in
  let con := theConsole w in
  announce "console_execute"
    (set_console {| log := log con; commands := commands con;
                    cmd_log := command :: cmd_log con |} w).

Definition looked_up (command : string) (w : World fptr) : World fptr :=
  probe (LookupCVar (cmd_name_of command)) (entered command w).

(** The variable after the cvar branch, and the state with it stored: with
    no argument both are as before. *)
Definition assigned (cvar : CVar) (args : list string) : CVar :=
  match args with
  | arg0 :: _ => assign cvar arg0
  | [] => cvar
  end.

Definition stored (cvar_name : string) (cvar : CVar) (args : list string)
    (w : World fptr) : World fptr :=
  match args with
  | arg0 :: _ => set_cvars (<[cvar_name := assign cvar arg0]> (cvars w)) w
  | [] => w
  end.

(** A sequence of registrations, first to last. *)
Definition register_all (cs : list (ConsoleCommand fptr)) (con : Console fptr)
  : Console fptr :=
  fold_left (fun con c => addCommand c con) cs con.

(** The registry reads in alphabetical order: going through the indices
    below the count with [command], an earlier name is never above a later
    one in the ordinal order of strings. *)
Definition alphabetical (con : Console fptr) : Prop :=
  forall (i j : nat) (ci cj : ConsoleCommand fptr),
    (i <= j < length (commands con))%nat ->
    command i con = Some ci -> command j con = Some cj ->
    String.leb (name ci) (name cj) = true.

(** The text of the two reports. *)
Definition cvar_line (cvar_name value : string) : string :=
  dquote ++ cvar_name ++ dquote ++ " = " ++ dquote ++ value ++ dquote.

Definition unknown_line (cmd_name : string) : string :=
  "Unknown command: " ++ dquote ++ cmd_name ++ dquote.

(** A transcript entry is the message and its newline. *)
Definition entry (message : string) : string :=
  message ++ String newline EmptyString.

End ConsoleOps.

(** ** The commands of Console.cpp and the start of the process *)

(** The handlers [CONSOLE_COMMAND] declares: [c_echo], [c_cmdlist] and
    [c_cvarlist]. *)
Inductive builtin := c_echo | c_cmdlist | c_cvarlist.

(** Modelled from the spec: [get_cvar_list] (CVar.cpp) gives the names of
    the variables of the store. *)
Definition get_cvar_list (m : gmap string CVar) : list string :=
  (map_to_list m).*1.

(** The bodies of the three commands. [echo] is declared with one argument
    at least, so its [args[0]] exists whenever the console calls it. *)
Definition run_builtin (f : builtin) (args : list string)
    (w : World builtin) : World builtin :=
  match f with
  | c_echo =>
      match args with
      | arg0 :: _ => logMessage arg0 w
      | [] => w
      end
  | c_cmdlist =>
      let n := numCommands (theConsole w) in
      let w := logMessage (CLib.fmt_d n ++ " Valid Commands:") w in
      fold_left
        (fun w a =>
           match command a (theConsole w) with
           | Some c => logMessage (dquote ++ name c ++ dquote) w
           | None => w
           end)
        (seq 0 (Z.to_nat n)) w
  | c_cvarlist =>
      let list := sort String.ltb (get_cvar_list (cvars w)) in
      let w := logMessage
                 (CLib.fmt_d (CLib.to_int (Z.of_nat (length list)))
                  ++ " CVars:") w in
      fold_left (fun w a => logMessage a w) list w
  end.

(** [Console::Console] and the state before any command exists. *)
Definition Console_new : Console builtin :=
  {| log := []; commands := []; cmd_log := [] |}.

Definition World_new (vars : gmap string CVar) : World builtin :=
  {| theConsole := Console_new; cvars := vars; wx_log := [];
     announced := []; probes := [] |}.

(** The static objects of Console.cpp are built in the order of the file. *)
Definition startup (vars : gmap string CVar) : World builtin :=
  ConsoleCommand_new "cvarlist" c_cvarlist 0
    (ConsoleCommand_new "cmdlist" c_cmdlist 0
       (ConsoleCommand_new "echo" c_echo 1 (World_new vars))).

(** Modelled from the spec: the Tokenizer splits a line at white space
    (quoting is the tokenizer's own business and is left out). *)
Fixpoint split_ws (s : string) (cur : string) : list string :=
  match s with
  | EmptyString =>
      match cur with
      | EmptyString => []
      | _ => [cur]
      end
  | String c s' =>
      if CLib.isspace c then
        match cur with
        | EmptyString => split_ws s' EmptyString
        | _ => cur :: split_ws s' EmptyString
        end
      else split_ws s' (cur ++ String c EmptyString)
  end.

Definition tokens (s : string) : list string := split_ws s EmptyString.

(** The console of the program: the line is run with the built-in handlers
    and the white-space tokenizer. *)
Definition run (command : string) (w : World builtin) : World builtin :=
  execute run_builtin tokens command w.


(** A store with one variable of each type, for the examples. *)
Definition sample_vars : gmap string CVar :=
  {[ "v" := CBoolCVar 0%N false;
     "n" := CIntCVar 0%N 7;
     "x" := CFloatCVar 0%N (S754_finite false 4503599627370496 (-72));
     "s" := CStringCVar 0%N "hi" ]}.

(** The commands of Console.cpp as records. *)
Definition echo : ConsoleCommand builtin :=
  {| name := "echo"; commandFunc := c_echo; min_args := 1 |}.
Definition cmdlist : ConsoleCommand builtin :=
  {| name := "cmdlist"; commandFunc := c_cmdlist; min_args := 0 |}.
Definition cvarlist : ConsoleCommand builtin :=
  {| name := "cvarlist"; commandFunc := c_cvarlist; min_args := 0 |}.

(** ** Names for the statements about the transcript and about sessions *)

(** The message as [Console::logMessage] puts it in the transcript: with a
    newline at the end, added when the message does not end in one. *)
Definition terminated (message : string) : string :=
  match Last message with
  | Some c => if Ascii.eqb c newline then message
              else message ++ String newline EmptyString
  | None => message ++ String newline EmptyString
  end.

(** Messages logged one after the other. *)
Definition log_all {fptr : Type} (messages : list string) (w : World fptr)
  : World fptr :=
  fold_left (fun w message => logMessage message w) messages w.

(** Lines given to the program's console one after the other. *)
Definition run_all (tokenize : string -> list string) (lines : list string)
    (w : World builtin) : World builtin :=
  fold_left (fun w line => execute run_builtin tokenize line w) lines w.

(** The lines that [Console::execute] does not drop. *)
Definition nonempty (line : string) : bool :=
  match line with
  | EmptyString => false
  | String _ _ => true
  end.

(** The text of a command name in the output of [cmdlist]. *)
Definition quoted (text : string) : string := dquote ++ text ++ dquote.

(** * Properties *)

(** ** The decimal conversions: [atoi] reads back what [%d] prints *)

Module CLibFacts.
Import CLib.

Lemma digit_string_head (d : uint) :
  d <> Nil ->
  exists c s, NilEmpty.string_of_uint d = String c s /\
    isspace c = false /\ Ascii.eqb c "-" = false /\ Ascii.eqb c "+" = false.
Proof.
  destruct d; [congruence | ..]; intros _; simpl; eexists _, _; (split; [reflexivity |]);
    repeat split; reflexivity.
Qed.

Lemma read_digits_acc (d : uint) (acc : positive) (n : nat) :
  exists k,
    read_digits (NilEmpty.string_of_uint d) (Z.pos acc) n
    = (Z.pos (Pos.of_uint_acc d acc), k, EmptyString).
Proof.
  revert acc n.
  induction d; intros acc n; simpl; [eexists; reflexivity | ..];
    match goal with
    | |- context [read_digits _ ?a ?m] =>
        match goal with
        | |- context [Pos.of_uint_acc _ ?b] =>
            replace a with (Z.pos b) by (unfold code; simpl N_of_ascii; lia);
            apply IHd
        end
    end.
Qed.

Lemma read_digits_zero (d : uint) (n : nat) :
  exists k,
    read_digits (NilEmpty.string_of_uint d) 0 n
    = (Z.of_N (Pos.of_uint d), k, EmptyString).
Proof.
  revert n.
  induction d; intros n; simpl; [eexists; reflexivity | apply IHd | ..];
    apply read_digits_acc.
Qed.

Lemma strtol_digits (neg : bool) (p : positive) :
  strtol (sign_text neg ++ NilEmpty.string_of_uint (Pos.to_uint p))
  = clamp INT_MIN INT_MAX (if neg then Z.neg p else Z.pos p).
Proof.
  destruct (digit_string_head (Pos.to_uint p) (Unsigned.to_uint_nonnil p))
    as (c & s & Hs & Hsp & Hm & Hp).
  destruct (read_digits_zero (Pos.to_uint p) 0) as [k Hk].
  rewrite Unsigned.of_to in Hk.
  unfold strtol.
  destruct neg; simpl sign_text.
  - change (skip_space ("-" ++ ?x)) with (String "-" x).
    unfold read_sign. change (Ascii.eqb "-" "-") with true. cbv iota.
    rewrite Hk. reflexivity.
  - change (EmptyString ++ ?x) with x.
    rewrite Hs. cbn [skip_space]. rewrite Hsp. unfold read_sign.
    rewrite Hm, Hp.
    rewrite <- Hs, Hk. reflexivity.
Qed.

Lemma to_int_in_range (z : Z) : INT_MIN <= z <= INT_MAX -> to_int z = z.
Proof.
  unfold to_int, INT_MIN, INT_MAX. intros H.
  rewrite Z.mod_small by lia. lia.
Qed.

(** [atoi] reads back every [int] that [%d] has printed. *)
Lemma atoi_fmt_d (z : Z) : INT_MIN <= z <= INT_MAX -> atoi (fmt_d z) = z.
Proof.
  intros H. unfold atoi, fmt_d.
  assert (Hc : clamp INT_MIN INT_MAX z = z) by (unfold clamp; lia).
  destruct z as [| p | p]; simpl Z.to_int; cbn [NilZero.string_of_int].
  - reflexivity.
  - pose proof (strtol_digits false p) as Hs. simpl sign_text in Hs.
    change (EmptyString ++ ?x) with x in Hs.
    unfold NilZero.string_of_uint.
    destruct (Pos.to_uint p) eqn:E;
      [destruct (Unsigned.to_uint_nonnil p E) | ..];
      rewrite Hs, Hc; apply to_int_in_range; exact H.
  - pose proof (strtol_digits true p) as Hs. simpl sign_text in Hs.
    change ("-" ++ ?x) with (String "-" x) in Hs.
    unfold NilZero.string_of_uint.
    destruct (Pos.to_uint p) eqn:E;
      [destruct (Unsigned.to_uint_nonnil p E) | ..];
      rewrite Hs, Hc; apply to_int_in_range; exact H.
Qed.

End CLibFacts.

(** ** Ordinal comparison of strings *)

Lemma ltb_lt (a b : string) : String.ltb a b = true -> String_as_OT.lt a b.
Proof.
  unfold String.ltb, String_as_OT.lt.
  change (String_as_OT.compare a b) with (String.compare a b).
  destruct (String.compare a b); congruence.
Qed.

Lemma ltb_false (a b : string) :
  String.ltb a b = false -> a = b \/ String_as_OT.lt b a.
Proof.
  unfold String.ltb. intros H.
  destruct (String.compare a b) eqn:E; [left | discriminate | right].
  - apply String.compare_eq_iff, E.
  - unfold String_as_OT.lt. change (String.compare b a = Lt).
    rewrite String.compare_antisym, E. reflexivity.
Qed.

Lemma ltb_irrefl (a : string) : String.ltb a a = false.
Proof.
  destruct (String.ltb a a) eqn:E; [| reflexivity].
  destruct (StrictOrder_Irreflexive _ (ltb_lt _ _ E)).
Qed.

Lemma ltb_asym (a b : string) : String.ltb a b = true -> String.ltb b a = false.
Proof.
  unfold String.ltb. rewrite (String.compare_antisym a b).
  destruct (String.compare b a); simpl; congruence.
Qed.

Lemma ltb_false_trans (a b c : string) :
  String.ltb b a = false -> String.ltb c b = false -> String.ltb c a = false.
Proof.
  intros Hba Hcb.
  destruct (String.ltb c a) eqn:E; [exfalso | reflexivity].
  apply ltb_lt in E.
  destruct (ltb_false _ _ Hba) as [-> | Hab];
    destruct (ltb_false _ _ Hcb) as [<- | Hbc].
  - exact (StrictOrder_Irreflexive _ E).
  - exact (StrictOrder_Irreflexive _ (StrictOrder_Transitive _ _ _ E Hbc)).
  - exact (StrictOrder_Irreflexive _ (StrictOrder_Transitive _ _ _ E Hab)).
  - assert (Hcb' := StrictOrder_Transitive _ _ _ E Hab).
    exact (StrictOrder_Irreflexive _ (StrictOrder_Transitive _ _ _ Hcb' Hbc)).
Qed.

Lemma leb_ltb (a b : string) : String.leb a b = true <-> String.ltb b a = false.
Proof.
  unfold String.leb, String.ltb. rewrite (String.compare_antisym b a).
  destruct (String.compare a b); simpl; split; congruence.
Qed.

(** ** The sort *)

Section SortFacts.

Context {A : Type} (lt : A -> A -> bool).

Hypothesis lt_asym : forall x y, lt x y = true -> lt y x = false.
Hypothesis before_trans :
  forall x y z, before lt x y -> before lt y z -> before lt x z.

Lemma insert_sorted_perm (x : A) (l : list A) :
  Permutation (x :: l) (insert_sorted lt x l).
Proof.
  induction l as [| y l IH]; simpl; [reflexivity |].
  destruct (lt y x); [| reflexivity].
  rewrite perm_swap. constructor. exact IH.
Qed.

Lemma sort_perm (l : list A) : Permutation l (sort lt l).
Proof.
  induction l as [| x l IH]; simpl; [constructor |].
  rewrite <- insert_sorted_perm. constructor. exact IH.
Qed.

Lemma insert_sorted_sorted (x : A) (l : list A) :
  StronglySorted (before lt) l -> StronglySorted (before lt) (insert_sorted lt x l).
Proof using lt_asym before_trans.
  induction 1 as [| y l Hl IH Hy]; simpl.
  - repeat constructor.
  - destruct (lt y x) eqn:E.
    + constructor; [exact IH |].
      rewrite <- insert_sorted_perm. constructor; [| exact Hy].
      apply lt_asym, E.
    + constructor; [constructor; assumption |].
      constructor; [exact E |].
      eapply Forall_impl; [exact Hy |].
      intros z Hz. exact (before_trans _ _ _ E Hz).
Qed.

Lemma sort_sorted (l : list A) : StronglySorted (before lt) (sort lt l).
Proof using lt_asym before_trans.
  induction l as [| x l IH]; simpl; [constructor |].
  apply insert_sorted_sorted, IH.
Qed.

End SortFacts.

(** In a strongly sorted list an earlier element stands before a later one. *)
Lemma StronglySorted_lookup {A} (R : A -> A -> Prop) (l : list A) :
  StronglySorted R l ->
  forall (i j : nat) (x y : A),
    (i < j)%nat -> l !! i = Some x -> l !! j = Some y -> R x y.
Proof.
  induction 1 as [| a l Hl IH Ha]; intros i j x y Hij Hi Hj.
  - discriminate.
  - destruct j as [| j]; [lia |]. simpl in Hj.
    destruct i as [| i]; simpl in Hi.
    + injection Hi as <-. rewrite Forall_forall in Ha.
      apply Ha. eapply list_elem_of_lookup_2, Hj.
    + eapply IH; [| exact Hi | exact Hj]. lia.
Qed.

(** ** The transcript *)

Lemma Last_String (a : ascii) (s : string) :
  Last (String a s) = match Last s with Some c => Some c | None => Some a end.
Proof.
  revert a. induction s as [| b s IH]; intros a; [reflexivity |].
  change (Last (String a (String b s))) with (Last (String b s)).
  rewrite (IH b). destruct (Last s); reflexivity.
Qed.

Lemma Last_append (a b : string) :
  Last (a ++ b) = match Last b with Some c => Some c | None => Last a end.
Proof.
  induction a as [| x a IH].
  - change (EmptyString ++ b) with b. destruct (Last b); reflexivity.
  - change (String x a ++ b) with (String x (a ++ b)).
    rewrite !Last_String, IH. destruct (Last b), (Last a); reflexivity.
Qed.

Lemma Last_cvar_line (n v : string) : Last (cvar_line n v) = Some (ascii_of_nat 34).
Proof. unfold cvar_line. rewrite !Last_append. reflexivity. Qed.

Lemma Last_unknown_line (n : string) : Last (unknown_line n) = Some (ascii_of_nat 34).
Proof. unfold unknown_line. rewrite !Last_append. reflexivity. Qed.

Section DispatchFacts.

Context {fptr : Type}.
Variable call : fptr -> list string -> World fptr -> World fptr.
Variable tokenize : string -> list string.

Implicit Types (w : World fptr) (con : Console fptr) (c : ConsoleCommand fptr).

(** A message without a final newline goes to the transcript as its entry;
    nothing else of the state changes but the announcement. *)
Lemma logMessage_entry (message : string) (ch : ascii) w :
  Last message = Some ch -> ch <> newline ->
  logMessage message w =
  announce "console_logmessage"
    (set_console {| log := log (theConsole w) ++ [entry message];
                    commands := commands (theConsole w);
                    cmd_log := cmd_log (theConsole w) |} w).
Proof.
  intros HL Hc. unfold logMessage. rewrite HL.
  destruct (Ascii.eqb_spec ch newline); [contradiction | reflexivity].
Qed.

Lemma lastLogLine_snoc (l : list string) (x : string) (cs : list (ConsoleCommand fptr))
    (h : list string) :
  lastLogLine {| log := l ++ [x]; commands := cs; cmd_log := h |} = x.
Proof.
  unfold lastLogLine. cbn [log]. rewrite List.last_last.
  rewrite length_app. simpl. destruct (length l); reflexivity.
Qed.

Lemma find_command_Some (n : string) (cs : list (ConsoleCommand fptr)) c :
  find_command n cs = Some c -> name c = n /\ c ∈ cs.
Proof.
  induction cs as [| c' cs IH]; simpl; [discriminate |].
  destruct (String.eqb_spec (name c') n) as [E | E].
  - intros [= <-]. split; [exact E | constructor].
  - intros H. destruct (IH H). split; [assumption | constructor; assumption].
Qed.

Lemma find_command_None (n : string) (cs : list (ConsoleCommand fptr)) :
  find_command n cs = None -> forall c, c ∈ cs -> name c <> n.
Proof.
  induction cs as [| c' cs IH]; simpl; intros H c Hc.
  - inversion Hc.
  - destruct (String.eqb_spec (name c') n) as [E | E]; [discriminate |].
    inversion Hc; subst; [exact E | apply IH; assumption].
Qed.

(** [execute] on the empty line stops after the line for the log sink. *)
Lemma execute_empty w :
  execute call tokenize EmptyString w = wxLogMessage "> " w.
Proof. reflexivity. Qed.

(** [execute] on any other line, by its named steps. *)
Lemma execute_nonempty (command : string) w :
  command <> EmptyString ->
  execute call tokenize command w =
  match find_command (cmd_name_of tokenize command) (commands (theConsole w)) with
  | Some c =>
      ConsoleCommand_execute call c (args_of tokenize command)
        (entered command w)
  | None =>
      match cvars w !! cmd_name_of tokenize command with
      | Some cvar =>
          logMessage
            (cvar_line (cmd_name_of tokenize command)
               (format (assigned cvar (args_of tokenize command))))
            (stored (cmd_name_of tokenize command) cvar
               (args_of tokenize command) (looked_up tokenize command w))
      | None =>
          logMessage (unknown_line (cmd_name_of tokenize command))
            (looked_up tokenize command w)
      end
  end.
Proof.
  intros Hne. unfold execute, cmd_name_of, args_of, looked_up, cmd_name_of.
  destruct command as [| a command]; [contradiction |].
  cbn [String.length Nat.eqb].
  fold (entered (String a command) w).
  destruct (getToken (openString tokenize (String a command))) as [cmd_name tz].
  destruct (getToken tz) as [arg tz']. cbn [fst].
  change (commands (theConsole (entered (String a command) w)))
    with (commands (theConsole w)).
  destruct (find_command cmd_name (commands (theConsole w))); [reflexivity |].
  unfold get_cvar.
  change (cvars (entered (String a command) w)) with (cvars w).
  destruct (cvars w !! cmd_name) as [cvar |]; [| reflexivity].
  unfold assigned, stored, cvar_line.
  destruct (read_args arg tz'); reflexivity.
Qed.

Lemma probes_stored (n : string) (cvar : CVar) (args : list string) w :
  probes (stored n cvar args w) = probes w.
Proof. destruct args; reflexivity. Qed.

Lemma theConsole_stored (n : string) (cvar : CVar) (args : list string) w :
  theConsole (stored n cvar args w) = theConsole w.
Proof. destruct args; reflexivity. Qed.

(** C1: on a line that is not empty, a registered command of the name of
    the first token takes the line: [execute] is the command's own
    [execute] on the arguments, and the dispatcher does not look into the
    variable store. The store is asked only when no command has that name,
    and the unknown-command report is written only when the store has no
    such variable either. *)
Theorem execute_precedence (command : string) w :
  command <> EmptyString ->
  let cmd_name := cmd_name_of tokenize command in
  let args := args_of tokenize command in
  let w' := execute call tokenize command w in
  match find_command cmd_name (commands (theConsole w)) with
  | Some c =>
      name c = cmd_name /\ c ∈ commands (theConsole w) /\
      w' = ConsoleCommand_execute call c args (entered command w) /\
      probes w' =
        (probes w ++ (if min_args c <=? Z.of_nat (length args)
                      then [CallHandler (commandFunc c) args] else []))%list
  | None =>
      (forall c, c ∈ commands (theConsole w) -> name c <> cmd_name) /\
      probes w' = (probes w ++ [LookupCVar cmd_name])%list /\
      match cvars w !! cmd_name with
      | Some cvar =>
          w' = logMessage (cvar_line cmd_name (format (assigned cvar args)))
                 (stored cmd_name cvar args (looked_up tokenize command w))
      | None =>
          w' = logMessage (unknown_line cmd_name)
                 (looked_up tokenize command w)
      end
  end.
Proof.
  intros Hne cmd_name args w'. subst w'.
  rewrite (execute_nonempty command w Hne).
  fold cmd_name args.
  destruct (find_command cmd_name (commands (theConsole w))) as [c |] eqn:Hf.
  - destruct (find_command_Some _ _ _ Hf) as [Hn Hin].
    repeat split; try assumption.
    unfold ConsoleCommand_execute.
    destruct (min_args c <=? Z.of_nat (length args)); [reflexivity |].
    cbn. rewrite app_nil_r. reflexivity.
  - split; [exact (find_command_None _ _ Hf) |].
    destruct (cvars w !! cmd_name) as [cvar |]; (split; [| reflexivity]).
    + cbn. rewrite probes_stored. reflexivity.
    + reflexivity.
Qed.

(** C5: a line for a registered command with fewer arguments than the
    command's minimum does not reach the handler: the dispatcher records no
    call, the state is the one [logMessage] leaves, whatever the handlers
    are, and the last line of the transcript is the report. *)
Theorem missing_arguments (command : string) w c :
  command <> EmptyString ->
  find_command (cmd_name_of tokenize command) (commands (theConsole w)) = Some c ->
  Z.of_nat (length (args_of tokenize command)) < min_args c ->
  let w' := execute call tokenize command w in
  w' = logMessage "Missing command arguments" (entered command w) /\
  probes w' = probes w /\
  log (theConsole w') =
    (log (theConsole w) ++ [entry "Missing command arguments"])%list /\
  lastLogLine (theConsole w') = entry "Missing command arguments".
Proof.
  intros Hne Hf Hlt w'. subst w'.
  rewrite (execute_nonempty command w Hne), Hf.
  unfold ConsoleCommand_execute.
  destruct (Z.leb_spec (min_args c) (Z.of_nat (length (args_of tokenize command))));
    [lia |].
  repeat split.
  apply lastLogLine_snoc.
Qed.

(** C6: the empty line changes neither the transcript nor the history, and
    announces nothing; the console, the variables and the record of the
    dispatcher are as before. *)
Theorem execute_empty_line w :
  let w' := execute call tokenize EmptyString w in
  log (theConsole w') = log (theConsole w) /\
  cmd_log (theConsole w') = cmd_log (theConsole w) /\
  announced w' = announced w /\
  length (announced w') = length (announced w) /\
  theConsole w' = theConsole w /\ cvars w' = cvars w /\ probes w' = probes w.
Proof. repeat split. Qed.

(** C7: a line that names a Boolean variable (and no command) with an
    argument sets the variable to false when the argument is exactly [0] or
    [false], and to true for any other argument; the transcript line that
    follows shows [false] or [true] accordingly. *)
Theorem assign_boolean (command : string) w (f : N) (b : bool)
    (arg0 : string) (rest : list string) :
  command <> EmptyString ->
  find_command (cmd_name_of tokenize command) (commands (theConsole w)) = None ->
  cvars w !! cmd_name_of tokenize command = Some (CBoolCVar f b) ->
  args_of tokenize command = arg0 :: rest ->
  let cmd_name := cmd_name_of tokenize command in
  let w' := execute call tokenize command w in
  ((arg0 = "0" \/ arg0 = "false") ->
     cvars w' !! cmd_name = Some (CBoolCVar f false) /\
     lastLogLine (theConsole w') = entry (cvar_line cmd_name "false")) /\
  (arg0 <> "0" -> arg0 <> "false" ->
     cvars w' !! cmd_name = Some (CBoolCVar f true) /\
     lastLogLine (theConsole w') = entry (cvar_line cmd_name "true")).
Proof.
  intros Hne Hf Hv Ha cmd_name w'. subst w'.
  rewrite (execute_nonempty command w Hne), Hf, Hv, Ha.
  fold cmd_name.
  assert (Hcase :
    forall v : bool,
      assign (CBoolCVar f b) arg0 = CBoolCVar f v ->
      let w' := logMessage
        (cvar_line cmd_name (format (assigned (CBoolCVar f b) (arg0 :: rest))))
        (stored cmd_name (CBoolCVar f b) (arg0 :: rest)
           (looked_up tokenize command w)) in
      cvars w' !! cmd_name = Some (CBoolCVar f v) /\
      lastLogLine (theConsole w') =
        entry (cvar_line cmd_name (if v then "true" else "false"))).
  { intros v Hv'. cbn zeta.
    rewrite (logMessage_entry _ _ _ (Last_cvar_line _ _)) by discriminate.
    cbn [assigned stored]. rewrite Hv'. split.
    - cbn. apply lookup_insert_eq.
    - cbn [theConsole announce set_console]. rewrite lastLogLine_snoc.
      destruct v; reflexivity. }
  split.
  - intros Harg. apply (Hcase false). cbn [assign].
    destruct Harg as [-> | ->]; reflexivity.
  - intros H0 Hfalse. apply (Hcase true). cbn [assign].
    destruct (String.eqb_spec arg0 "0"); [contradiction |].
    destruct (String.eqb_spec arg0 "false"); [contradiction |].
    reflexivity.
Qed.

(** C8: a line that is the name of a declared variable (and of no command)
    with no argument adds one transcript line, the name and the current
    value of the variable in double quotes ([true] or [false], the decimal
    integer, the number with four decimals, or the string as it is), and
    leaves the variable store as it was. *)
Theorem read_variable (command : string) w (cvar : CVar) :
  command <> EmptyString ->
  find_command (cmd_name_of tokenize command) (commands (theConsole w)) = None ->
  cvars w !! cmd_name_of tokenize command = Some cvar ->
  args_of tokenize command = [] ->
  let w' := execute call tokenize command w in
  let value :=
    match cvar with
    | CBoolCVar _ true => "true"
    | CBoolCVar _ false => "false"
    | CIntCVar _ i => CLib.fmt_d i
    | CFloatCVar _ x => CLib.fmt_f4 x
    | CStringCVar _ text => text
    end in
  log (theConsole w') =
    (log (theConsole w)
     ++ [entry (cvar_line (cmd_name_of tokenize command) value)])%list /\
  cvars w' = cvars w.
Proof.
  intros Hne Hf Hv Ha w'. subst w'.
  rewrite (execute_nonempty command w Hne), Hf, Hv, Ha.
  rewrite (logMessage_entry _ _ _ (Last_cvar_line _ _)) by discriminate.
  destruct cvar as [f [|] | f i | f x | f text]; split; reflexivity.
Qed.

(** C9: a line whose first token is neither a command nor a variable adds
    exactly one transcript line, the unknown-command report with the token
    in double quotes; nothing is called and no variable changes. *)
Theorem unknown_command (command : string) w :
  command <> EmptyString ->
  find_command (cmd_name_of tokenize command) (commands (theConsole w)) = None ->
  cvars w !! cmd_name_of tokenize command = None ->
  let w' := execute call tokenize command w in
  log (theConsole w') =
    (log (theConsole w)
     ++ [entry (unknown_line (cmd_name_of tokenize command))])%list /\
  cvars w' = cvars w /\
  probes w' = (probes w ++ [LookupCVar (cmd_name_of tokenize command)])%list.
Proof.
  intros Hne Hf Hv w'. subst w'.
  rewrite (execute_nonempty command w Hne), Hf, Hv.
  rewrite (logMessage_entry _ _ _ (Last_unknown_line _)) by discriminate.
  repeat split.
Qed.

End DispatchFacts.

(** ** The registry *)

Section RegistryFacts.

Context {fptr : Type}.
Implicit Types (con : Console fptr) (c : ConsoleCommand fptr)
  (cs : list (ConsoleCommand fptr)).

Lemma command_lt_asym c1 c2 : command_lt c1 c2 = true -> command_lt c2 c1 = false.
Proof. apply ltb_asym. Qed.

Lemma command_before_trans c1 c2 c3 :
  before command_lt c1 c2 -> before command_lt c2 c3 -> before command_lt c1 c3.
Proof. unfold before, command_lt. apply ltb_false_trans. Qed.

(** Every insertion leaves the registry sorted, whatever it was before. *)
Lemma addCommand_sorted c con :
  StronglySorted (before command_lt) (commands (addCommand c con)).
Proof. apply sort_sorted; [exact command_lt_asym | exact command_before_trans]. Qed.

Lemma addCommand_perm c con :
  Permutation (commands con ++ [c]) (commands (addCommand c con)).
Proof. apply sort_perm. Qed.

Lemma register_all_snoc cs c con :
  register_all (cs ++ [c]) con = addCommand c (register_all cs con).
Proof. unfold register_all. rewrite fold_left_app. reflexivity. Qed.

(** Registration loses and invents nothing. *)
Lemma register_all_perm cs con :
  Permutation (commands con ++ cs) (commands (register_all cs con)).
Proof.
  revert con. induction cs as [| c cs IH]; intros con.
  - rewrite app_nil_r. reflexivity.
  - change (register_all (c :: cs) con) with (register_all cs (addCommand c con)).
    rewrite <- IH, <- addCommand_perm, <- app_assoc. reflexivity.
Qed.

Lemma register_all_sorted cs con :
  commands con = [] ->
  StronglySorted (before command_lt) (commands (register_all cs con)).
Proof.
  intros Hnil. destruct cs as [| c cs] using rev_ind.
  - simpl. rewrite Hnil. constructor.
  - rewrite register_all_snoc. apply addCommand_sorted.
Qed.

Lemma sorted_alphabetical con :
  StronglySorted (before command_lt) (commands con) -> alphabetical con.
Proof.
  intros Hs i j ci cj [Hij Hj] Hi Hcj. unfold command in Hi, Hcj.
  destruct (Nat.ltb_spec i (length (commands con))); [| lia].
  destruct (Nat.ltb_spec j (length (commands con))); [| lia].
  apply leb_ltb.
  destruct (decide (i = j)) as [-> | Hne].
  - rewrite Hi in Hcj. injection Hcj as <-. apply ltb_irrefl.
  - apply (StronglySorted_lookup _ _ Hs i j ci cj); [lia | assumption ..].
Qed.

(** The order of the registrations does not show in the names read. *)
Lemma before_ltb_antisym (a b : string) :
  before String.ltb a b -> before String.ltb b a -> a = b.
Proof.
  unfold before. intros Hba Hab.
  destruct (ltb_false _ _ Hba) as [-> | H1]; [reflexivity |].
  destruct (ltb_false _ _ Hab) as [-> | H2]; [reflexivity |].
  destruct (StrictOrder_Irreflexive _ (StrictOrder_Transitive _ _ _ H1 H2)).
Qed.

Lemma sorted_perm_eq (l1 l2 : list string) :
  StronglySorted (before String.ltb) l1 ->
  StronglySorted (before String.ltb) l2 ->
  Permutation l1 l2 -> l1 = l2.
Proof.
  intros H1. revert l2.
  induction H1 as [| x l1 Hs1 IH Hx]; intros l2 H2 Hp.
  - apply Permutation_nil in Hp. congruence.
  - destruct H2 as [| y l2 Hs2 Hy].
    + symmetry in Hp. apply Permutation_nil in Hp. discriminate.
    + assert (Hxy : x = y).
      { assert (Hx2 : x ∈ y :: l2) by (rewrite <- Hp; constructor).
        assert (Hy1 : y ∈ x :: l1) by (rewrite Hp; constructor).
        rewrite Forall_forall in Hx, Hy.
        inversion Hx2 as [| ? ? ? Hx2']; subst; [reflexivity |].
        inversion Hy1 as [| ? ? ? Hy1']; subst; [reflexivity |].
        apply before_ltb_antisym; [apply Hx, Hy1' | apply Hy, Hx2']. }
      subst y. f_equal. apply IH; [exact Hs2 |].
      eapply Permutation_cons_inv, Hp.
Qed.

Lemma names_sorted cs :
  StronglySorted (before command_lt) cs ->
  StronglySorted (before String.ltb) (map name cs).
Proof.
  induction 1 as [| c cs Hs IH Hc]; simpl; constructor; [exact IH |].
  rewrite Forall_map. exact Hc.
Qed.

(** X22: the names read from the registry do not depend on the order of
    the registrations: two sequences with the same commands give the same
    list of names. *)
Lemma registry_order_independent cs cs' con :
  commands con = [] -> Permutation cs cs' ->
  map name (commands (register_all cs con))
  = map name (commands (register_all cs' con)).
Proof.
  intros Hnil Hp.
  apply sorted_perm_eq; try (apply names_sorted, register_all_sorted, Hnil).
  apply Permutation_map.
  rewrite <- !register_all_perm, Hp. reflexivity.
Qed.

(** Reading a list by index from 0 to its length less one gives its
    elements in order. *)
Lemma lookup_seq {A} (pre l : list A) :
  map (fun i => (pre ++ l)%list !! i) (seq (length pre) (length l))
  = map Some l.
Proof.
  revert pre. induction l as [| x l IH]; intros pre; [reflexivity |].
  cbn [length seq map]. f_equal.
  - apply list_lookup_middle. reflexivity.
  - replace (pre ++ x :: l)%list with ((pre ++ [x]) ++ l)%list
      by (rewrite <- app_assoc; reflexivity).
    replace (S (length pre)) with (length (pre ++ [x])%list)
      by (rewrite length_app; cbn; lia).
    apply IH.
Qed.

Lemma enumerate_commands con :
  map (fun i => command i con) (seq 0 (length (commands con)))
  = map Some (commands con).
Proof.
  rewrite <- (lookup_seq [] (commands con)).
  apply map_ext_in. intros i Hi. apply in_seq in Hi. cbn [length] in Hi.
  unfold command.
  destruct (Nat.ltb_spec i (length (commands con))); [reflexivity | lia].
Qed.

(** C4: after any sequence of registrations on a new console, in whatever
    order they come, reading the registry by index from 0 to the count less
    one yields the registered commands, each as often as it was registered
    and none else, in ascending ordinal order of their names. Every prefix
    of the sequence is such a sequence, so this holds after every
    insertion; and by [registry_order_independent] the names read are the
    same for every order of the same registrations. *)
Theorem registry_alphabetical cs con :
  commands con = [] ->
  let con' := register_all cs con in
  alphabetical con' /\
  Permutation cs (commands con') /\
  map (fun i => command i con') (seq 0 (length cs)) = map Some (commands con').
Proof.
  intros Hnil con'. subst con'.
  assert (Hp : Permutation cs (commands (register_all cs con))).
  { rewrite <- (register_all_perm cs con), Hnil. reflexivity. }
  split; [apply sorted_alphabetical, register_all_sorted, Hnil |].
  split; [exact Hp |].
  rewrite (Permutation_length Hp). apply enumerate_commands.
Qed.

(** C10: with one command or more in the registry, [command] has a result
    for every index, and for an index from the count on it is the command
    at index 0, the first in alphabetical order. *)
Theorem command_total con (index : nat) :
  commands con <> [] ->
  exists c,
    command index con = Some c /\
    ((length (commands con) <= index)%nat ->
     commands con !! 0%nat = Some c /\
     (alphabetical con ->
      forall c', c' ∈ commands con -> String.leb (name c) (name c') = true)).
Proof.
  intros Hne. unfold command.
  destruct (Nat.ltb_spec index (length (commands con))) as [Hlt | Hge].
  - destruct (lookup_lt_is_Some_2 _ _ Hlt) as [c Hc].
    exists c. split; [exact Hc | lia].
  - destruct (commands con) as [| c0 cs] eqn:E; [contradiction |].
    exists c0. split; [reflexivity |]. intros _. split; [reflexivity |].
    intros Halpha c' Hin.
    apply list_elem_of_lookup_1 in Hin as [j Hj].
    assert (Hlen : (j < length (commands con))%nat).
    { rewrite E. eapply lookup_lt_Some, Hj. }
    apply (Halpha 0%nat j c0 c').
    + lia.
    + unfold command. rewrite E. reflexivity.
    + unfold command. destruct (Nat.ltb_spec j (length (commands con))); [| lia].
      rewrite E. exact Hj.
Qed.

End RegistryFacts.

(** ** The variables: printing and reading back *)

(** The text of a Float variable keeps four decimals: 2^-20 is printed as
    [0.0000] and read back as 0. *)
Lemma small_float_is_lost :
  let v := CFloatCVar 0 (S754_finite false 4503599627370496 (-72)) in
  let fresh := CFloatCVar 0 (S754_zero false) in
  well_formed v /\ type fresh = type v /\ flags fresh = flags v /\
  format v = "0.0000" /\
  assign fresh (format v) = CFloatCVar 0 (S754_zero false) /\
  assign fresh (format v) <> v.
Proof. repeat split; try reflexivity. discriminate. Qed.

(** C3, as the claim states it, fails: a Float variable that holds 2^-20
    does not come back from its own text. *)
Lemma roundtrip_all_types_fails :
  ~ (forall cvar fresh : CVar,
       well_formed cvar -> type fresh = type cvar -> flags fresh = flags cvar ->
       assign fresh (format cvar) = cvar).
Proof.
  intros H.
  destruct small_float_is_lost as (Hwf & Ht & Hf & _ & _ & Hne).
  exact (Hne (H _ _ Hwf Ht Hf)).
Qed.

(** C3, amended: for a Boolean, an Integer and a String variable, assigning
    the printed value to a new variable of the same type and flags gives the
    stored value back. *)
Theorem roundtrip_exact_types (cvar fresh : CVar) :
  type cvar <> CVAR_FLOAT ->
  well_formed cvar -> type fresh = type cvar -> flags fresh = flags cvar ->
  assign fresh (format cvar) = cvar.
Proof.
  intros Hnf Hwf Ht Hf.
  destruct cvar as [f b | f i | f x | f s]; [| | contradiction |];
    destruct fresh as [f' b' | f' i' | f' x' | f' s']; try discriminate;
    simpl in Hf; subst f'; cbn [assign format].
  - destruct b; reflexivity.
  - rewrite CLibFacts.atoi_fmt_d by exact Hwf. reflexivity.
  - reflexivity.
Qed.

Lemma roundtrip_exact_types_witness :
  assign (CIntCVar 0 0) (format (CIntCVar 0 (-120))) = CIntCVar 0 (-120).
Proof.
  apply (roundtrip_exact_types (CIntCVar 0 (-120)) (CIntCVar 0 0)).
  - discriminate.
  - simpl. unfold CLib.INT_MIN, CLib.INT_MAX. lia.
  - reflexivity.
  - reflexivity.
Defined.

(** ** The program's console on concrete lines *)

(** C2: after two commands [lastCommand] gives the first one entered, not
    the most recent, which is at the head of the history, where
    [prevCommand] reads it. *)
Theorem lastCommand_is_oldest :
  let w := run "echo two" (run "echo one" (startup sample_vars)) in
  cmd_log (theConsole w) = ["echo two"; "echo one"] /\
  prevCommand 0 (theConsole w) = "echo two" /\
  lastCommand (theConsole w) = "echo one" /\
  lastCommand (theConsole w) <> "echo two".
Proof. repeat split. discriminate. Qed.

(** The examples of the specification. *)
Example echo_hello :
  let w := run "echo hello" (startup sample_vars) in
  lastLogLine (theConsole w) = entry "hello" /\
  prevCommand 0 (theConsole w) = "echo hello".
Proof. split; reflexivity. Qed.

Example boolean_session :
  let w1 := run "v 1" (startup sample_vars) in
  let w2 := run "v 0" w1 in
  let w3 := run "v" w2 in
  cvars w1 !! "v" = Some (CBoolCVar 0 true) /\
  lastLogLine (theConsole w1) = entry (cvar_line "v" "true") /\
  cvars w2 !! "v" = Some (CBoolCVar 0 false) /\
  lastLogLine (theConsole w2) = entry (cvar_line "v" "false") /\
  cvars w3 !! "v" = Some (CBoolCVar 0 false) /\
  lastLogLine (theConsole w3) = entry (cvar_line "v" "false").
Proof. vm_compute. repeat split. Qed.

Example registry_at_startup :
  map name (commands (theConsole (startup sample_vars)))
  = ["cmdlist"; "cvarlist"; "echo"].
Proof. reflexivity. Qed.

Lemma execute_precedence_witness :
  let w := startup sample_vars in
  run "echo hello" w
  = ConsoleCommand_execute run_builtin echo ["hello"] (entered "echo hello" w)
  /\ probes (run "echo hello" w) = [CallHandler c_echo ["hello"]].
Proof.
  intros w.
  assert (Hne : "echo hello" <> EmptyString) by discriminate.
  pose proof (execute_precedence run_builtin tokens "echo hello" w Hne) as H.
  destruct H as (_ & _ & Hrun & Hprobes).
  split; [exact Hrun | exact Hprobes].
Defined.

Lemma missing_arguments_witness :
  let w := run "echo" (startup sample_vars) in
  lastLogLine (theConsole w) = entry "Missing command arguments" /\
  probes w = [].
Proof.
  intros w.
  destruct (missing_arguments run_builtin tokens "echo" (startup sample_vars) echo)
    as (_ & Hp & _ & Hl); [discriminate | reflexivity | reflexivity |].
  split; [exact Hl | exact Hp].
Defined.

Lemma assign_boolean_witness :
  let w := run "v 0" (run "v 1" (startup sample_vars)) in
  cvars w !! "v" = Some (CBoolCVar 0 false) /\
  lastLogLine (theConsole w) = entry (cvar_line "v" "false").
Proof.
  intros w.
  destruct (assign_boolean run_builtin tokens "v 0"
              (run "v 1" (startup sample_vars)) 0%N true "0" [])
    as [Hfalse _]; [discriminate | reflexivity | | reflexivity |].
  - vm_compute. reflexivity.
  - apply Hfalse. left. reflexivity.
Defined.

Lemma read_variable_witness :
  let w0 := startup sample_vars in
  (log (theConsole (run "v" w0)) = [entry (cvar_line "v" "false")] /\
   cvars (run "v" w0) = cvars w0) /\
  log (theConsole (run "n" w0)) = [entry (cvar_line "n" "7")] /\
  log (theConsole (run "x" w0)) = [entry (cvar_line "x" "0.0000")] /\
  log (theConsole (run "s" w0)) = [entry (cvar_line "s" "hi")].
Proof.
  intros w0. split; [| split; [| split]].
  - apply (read_variable run_builtin tokens "v" w0 (CBoolCVar 0 false));
      [discriminate | reflexivity | vm_compute; reflexivity | reflexivity].
  - destruct (read_variable run_builtin tokens "n" w0 (CIntCVar 0 7)) as [H _];
      [discriminate | reflexivity | vm_compute; reflexivity | reflexivity
      | exact H].
  - destruct (read_variable run_builtin tokens "x" w0
                (CFloatCVar 0 (S754_finite false 4503599627370496 (-72))))
      as [H _];
      [discriminate | reflexivity | vm_compute; reflexivity | reflexivity
      | exact H].
  - destruct (read_variable run_builtin tokens "s" w0 (CStringCVar 0 "hi"))
      as [H _];
      [discriminate | reflexivity | vm_compute; reflexivity | reflexivity
      | exact H].
Defined.

Lemma unknown_command_witness :
  let w0 := startup sample_vars in
  log (theConsole (run "boguscmd" w0)) = [entry (unknown_line "boguscmd")].
Proof.
  intros w0.
  destruct (unknown_command run_builtin tokens "boguscmd" w0) as (Hl & _ & _);
    [discriminate | reflexivity | | exact Hl].
  vm_compute. reflexivity.
Defined.

Lemma registry_alphabetical_witness :
  let con' := register_all [echo; cmdlist; cvarlist] Console_new in
  alphabetical con' /\
  Permutation [echo; cmdlist; cvarlist] [cmdlist; cvarlist; echo] /\
  map (fun i => command i con') (seq 0 3)
  = [Some cmdlist; Some cvarlist; Some echo].
Proof.
  apply (registry_alphabetical [echo; cmdlist; cvarlist] Console_new).
  reflexivity.
Defined.

Lemma command_total_witness :
  exists c, command 7 (theConsole (startup sample_vars)) = Some c /\
            name c = "cmdlist".
Proof.
  destruct (command_total (theConsole (startup sample_vars)) 7) as (c & Hc & Hout);
    [discriminate |].
  exists c. split; [exact Hc |].
  destruct Hout as [H0 _]; [simpl; lia |].
  injection H0 as <-. reflexivity.
Defined.

(** * Further properties of the console *)

(** ** The transcript *)

Section TranscriptFacts.

Context {fptr : Type}.
Implicit Types (w : World fptr) (con : Console fptr).

Lemma Last_terminated (message : string) :
  Last (terminated message) = Some newline.
Proof.
  unfold terminated.
  destruct (Last message) as [c |] eqn:E.
  - destruct (Ascii.eqb_spec c newline) as [-> | _]; [exact E |].
    rewrite Last_append. reflexivity.
  - rewrite Last_append. reflexivity.
Qed.

Lemma terminated_entry (message : string) (c : ascii) :
  Last message = Some c -> c <> newline -> terminated message = entry message.
Proof.
  intros E Hc. unfold terminated. rewrite E.
  destruct (Ascii.eqb_spec c newline); [contradiction | reflexivity].
Qed.

Lemma log_logMessage (message : string) w :
  log (theConsole (logMessage message w))
  = (log (theConsole w) ++ [terminated message])%list.
Proof. reflexivity. Qed.

(** The state after a run of messages, field by field. *)
Lemma log_all_fields (messages : list string) w :
  log (theConsole (log_all messages w))
    = (log (theConsole w) ++ map terminated messages)%list /\
  commands (theConsole (log_all messages w)) = commands (theConsole w) /\
  cmd_log (theConsole (log_all messages w)) = cmd_log (theConsole w) /\
  cvars (log_all messages w) = cvars w /\
  wx_log (log_all messages w) = wx_log w /\
  announced (log_all messages w)
    = (announced w ++ replicate (length messages) "console_logmessage")%list /\
  probes (log_all messages w) = probes w.
Proof.
  revert w. induction messages as [| m ms IH]; intros w.
  - cbn. rewrite !app_nil_r. repeat split.
  - change (log_all (m :: ms) w) with (log_all ms (logMessage m w)).
    destruct (IH (logMessage m w)) as (H1 & H2 & H3 & H4 & H5 & H6 & H7).
    rewrite H1, H2, H3, H4, H5, H6, H7. cbn [map length replicate].
    rewrite log_logMessage, <- !app_assoc. repeat split.
    change (announced (logMessage m w))
      with (announced w ++ ["console_logmessage"])%list.
    rewrite <- app_assoc. reflexivity.
Qed.

(** X1: for a message that is not empty, [logMessage] adds exactly one
    entry to the transcript: the message itself when it ends in a newline,
    the message with a newline added when it does not. The entry ends in a
    newline either way and is the last line afterwards. *)
Theorem logMessage_entry_terminated (message : string) w :
  message <> EmptyString ->
  let line := lastLogLine (theConsole (logMessage message w)) in
  log (theConsole (logMessage message w)) = (log (theConsole w) ++ [line])%list /\
  Last line = Some newline /\
  (Last message = Some newline -> line = message) /\
  (Last message <> Some newline ->
   line = message ++ String newline EmptyString).
Proof.
  intros Hne. cbn zeta.
  assert (E : lastLogLine (theConsole (logMessage message w)) = terminated message).
  { unfold logMessage. cbn [theConsole announce set_console].
    apply lastLogLine_snoc. }
  rewrite E. split; [apply log_logMessage |].
  split; [apply Last_terminated |].
  unfold terminated.
  destruct (Last message) as [c |] eqn:EL.
  - destruct (Ascii.eqb_spec c newline) as [-> | Hc]; split; try reflexivity.
    + intros H. contradiction.
    + intros [= H]. contradiction.
  - split; [discriminate | reflexivity].
Qed.

(** X2: the newline is added only when it is absent: a message that is
    not empty and has no final newline, and the same message with one, leave
    the same state. *)
Theorem logMessage_newline_once (message : string) w :
  message <> EmptyString ->
  Last message <> Some newline ->
  logMessage (message ++ String newline EmptyString) w = logMessage message w.
Proof.
  intros _ H. unfold logMessage. rewrite Last_append. cbn [Last].
  change (Ascii.eqb newline newline) with true. cbv iota.
  destruct (Last message) as [c |]; [| reflexivity].
  destruct (Ascii.eqb_spec c newline) as [-> | _]; [contradiction | reflexivity].
Qed.

(** X3: [dumpLog] after [logMessage] is the dump before followed by the new
    last line: the dump is the transcript in the order of insertion with
    nothing between the lines. *)
Theorem dumpLog_logMessage (message : string) w :
  dumpLog (theConsole (logMessage message w))
  = dumpLog (theConsole w) ++ lastLogLine (theConsole (logMessage message w)).
Proof.
  unfold dumpLog. rewrite log_logMessage, fold_left_app. cbn [fold_left].
  f_equal. symmetry. unfold logMessage. cbn [theConsole announce set_console].
  apply lastLogLine_snoc.
Qed.

(** X4: [prevCommand] gives the empty string for a negative index and for
    an index from the length of the history on. *)
Theorem prevCommand_out_of_range (index : Z) con :
  index < 0 \/ Z.of_nat (length (cmd_log con)) <= index ->
  prevCommand index con = EmptyString.
Proof.
  intros H. unfold prevCommand.
  destruct ((index <? 0) || (Z.of_nat (length (cmd_log con)) <=? to_size_t index))
    eqn:E; [reflexivity |].
  apply orb_false_iff in E as [E1 E2].
  apply Z.ltb_ge in E1.
  rewrite (lookup_ge_None_2 (cmd_log con) (Z.to_nat index)); [reflexivity | lia].
Qed.

End TranscriptFacts.

(** ** The program's console: what a line can change *)

Section ProgramFacts.

Variable tokenize : string -> list string.

Implicit Types (w : World builtin) (line : string).

(** The loop of [cmdlist] only logs. *)
Lemma cmdlist_loop_logs (indices : list nat) w :
  exists messages,
    fold_left
      (fun w a =>
         match command a (theConsole w) with
         | Some c => logMessage (dquote ++ name c ++ dquote) w
         | None => w
         end) indices w
    = log_all messages w.
Proof.
  revert w. induction indices as [| a l IH]; intros w.
  - exists []. reflexivity.
  - cbn [fold_left]. destruct (command a (theConsole w)) as [c |].
    + destruct (IH (logMessage (dquote ++ name c ++ dquote) w)) as [ms Hms].
      exists ((dquote ++ name c ++ dquote) :: ms). exact Hms.
    + apply IH.
Qed.

(** The built-in commands only log. *)
Lemma run_builtin_logs (f : builtin) (args : list string) w :
  exists messages, run_builtin f args w = log_all messages w.
Proof.
  destruct f; cbn [run_builtin].
  - destruct args as [| a rest]; [exists [] | exists [a]]; reflexivity.
  - match goal with
    | |- context [fold_left ?step ?l (logMessage ?m w)] =>
        destruct (cmdlist_loop_logs l (logMessage m w)) as [ms Hms];
        exists (m :: ms); exact Hms
    end.
  - eexists (_ :: _). reflexivity.
Qed.

(** The state after a line that is not empty, field by field: the lines
    [messages] are what the line logs. *)
Lemma run_fields line w :
  line <> EmptyString ->
  let w' := execute run_builtin tokenize line w in
  exists messages,
    log (theConsole w') = (log (theConsole w) ++ map terminated messages)%list /\
    commands (theConsole w') = commands (theConsole w) /\
    cmd_log (theConsole w') = line :: cmd_log (theConsole w) /\
    wx_log w' = (wx_log w ++ [("> " ++ line)%string])%list /\
    announced w'
      = (announced w
         ++ "console_execute"
            :: replicate (length messages) "console_logmessage")%list /\
    (forall k, k <> cmd_name_of tokenize line -> cvars w' !! k = cvars w !! k) /\
    (is_Some (find_command (cmd_name_of tokenize line) (commands (theConsole w)))
     \/ args_of tokenize line = [] -> cvars w' = cvars w).
Proof.
  intros Hne w'. subst w'. rewrite (execute_nonempty _ _ _ _ Hne).
  set (n := cmd_name_of tokenize line). set (args := args_of tokenize line).
  destruct (find_command n (commands (theConsole w))) as [c |] eqn:Hf.
  - unfold ConsoleCommand_execute.
    destruct (min_args c <=? Z.of_nat (length args)).
    + destruct (run_builtin_logs (commandFunc c) args (entered line w)) as [ms Hms].
      rewrite Hms. exists ms.
      destruct (log_all_fields ms (entered line w))
        as (H1 & H2 & H3 & H4 & H5 & H6 & H7).
      cbn [theConsole cvars wx_log announced set_probes].
      rewrite H1, H2, H3, H4, H5, H6. cbn. rewrite <- app_assoc.
      repeat split; reflexivity.
    + exists ["Missing command arguments"]. cbn. rewrite <- app_assoc.
      repeat split; reflexivity.
  - destruct (cvars w !! n) as [cvar |] eqn:Hv.
    + exists [cvar_line n (format (assigned cvar args))].
      rewrite log_logMessage. cbn [theConsole cvars wx_log announced logMessage
        announce set_console log commands cmd_log].
      rewrite theConsole_stored.
      destruct args as [| a rest]; cbn; rewrite <- ?app_assoc;
        repeat split; try reflexivity.
      * intros k Hk. apply lookup_insert_ne. congruence.
      * intros [[? [=]] | [=]].
    + exists [unknown_line n]. cbn. rewrite <- app_assoc.
      repeat split; reflexivity.
Qed.

(** The state after any line, the empty one included. *)
Lemma run_fields_any line w :
  let w' := execute run_builtin tokenize line w in
  exists messages,
    log (theConsole w') = (log (theConsole w) ++ map terminated messages)%list /\
    commands (theConsole w') = commands (theConsole w) /\
    cmd_log (theConsole w')
      = ((if nonempty line then [line] else []) ++ cmd_log (theConsole w))%list /\
    wx_log w' = (wx_log w ++ [("> " ++ line)%string])%list /\
    announced w'
      = (announced w
         ++ if nonempty line
            then "console_execute"
                 :: replicate (length messages) "console_logmessage"
            else [])%list.
Proof.
  destruct line as [| a line].
  - exists []. cbn. rewrite !app_nil_r. repeat split.
  - destruct (run_fields (String a line) w) as (ms & H1 & H2 & H3 & H4 & H5 & _);
      [discriminate |].
    exists ms. cbn [nonempty]. repeat split; assumption.
Qed.

(** X5: a line never changes the registry: the commands, their order and
    the result of every search by name are the same after [execute] as
    before, for the commands of Console.cpp. *)
Theorem run_keeps_registry line w :
  let w' := execute run_builtin tokenize line w in
  commands (theConsole w') = commands (theConsole w) /\
  (forall n, find_command n (commands (theConsole w'))
             = find_command n (commands (theConsole w))).
Proof.
  destruct (run_fields_any line w) as (ms & _ & H2 & _).
  cbn zeta. rewrite H2. repeat split.
Qed.

(** X6: the transcript only grows: a line leaves the earlier entries where
    they are and every entry it adds ends in a newline. *)
Theorem run_transcript_append_only line w :
  exists added,
    log (theConsole (execute run_builtin tokenize line w))
      = (log (theConsole w) ++ added)%list /\
    Forall (fun e => Last e = Some newline) added.
Proof.
  destruct (run_fields_any line w) as (ms & H1 & _).
  exists (map terminated ms). split; [exact H1 |].
  rewrite Forall_map. apply Forall_true. intros m. apply Last_terminated.
Qed.

(** X7: the announcements follow the transcript: the empty line announces
    nothing; any other line announces [console_execute] once and then
    [console_logmessage] once for each entry it adds to the transcript. *)
Theorem run_announcements line w :
  let w' := execute run_builtin tokenize line w in
  let added := (length (log (theConsole w')) - length (log (theConsole w)))%nat in
  announced w'
  = (announced w
     ++ if nonempty line
        then "console_execute" :: replicate added "console_logmessage"
        else [])%list.
Proof.
  destruct (run_fields_any line w) as (ms & H1 & _ & _ & _ & H5).
  cbn zeta. rewrite H5, H1, length_app, length_map.
  replace (length (log (theConsole w)) + length ms - length (log (theConsole w)))%nat
    with (length ms) by lia.
  reflexivity.
Qed.

(** X8: a line changes one variable at most, the one its first token names,
    and none at all when that token is the name of a command or when the
    line has no argument. *)
Theorem run_changes_one_variable_at_most line w :
  let w' := execute run_builtin tokenize line w in
  (forall k, k <> cmd_name_of tokenize line -> cvars w' !! k = cvars w !! k) /\
  (is_Some (find_command (cmd_name_of tokenize line) (commands (theConsole w)))
   \/ args_of tokenize line = [] -> cvars w' = cvars w).
Proof.
  destruct line as [| a line]; [split; reflexivity |].
  destruct (run_fields (String a line) w) as (ms & _ & _ & _ & _ & _ & H6 & H7);
    [discriminate |].
  split; assumption.
Qed.

(** The history after a session. *)
Lemma run_all_cmd_log (lines : list string) w :
  cmd_log (theConsole (run_all tokenize lines w))
  = (rev (List.filter nonempty lines) ++ cmd_log (theConsole w))%list.
Proof.
  revert w. induction lines as [| line lines IH]; intros w; [reflexivity |].
  change (run_all tokenize (line :: lines) w)
    with (run_all tokenize lines (execute run_builtin tokenize line w)).
  rewrite IH.
  destruct (run_fields_any line w) as (ms & _ & _ & H3 & _).
  rewrite H3. cbn [List.filter].
  destruct (nonempty line); [| reflexivity].
  cbn [rev]. rewrite <- app_assoc. reflexivity.
Qed.

(** X9: after a session the history is the lines that were not empty, the
    most recent first, in front of the history from before; the empty lines
    are not in it, and [prevCommand] with index 0 gives the last line of the
    session that was not empty. *)
Theorem run_all_history (lines : list string) w :
  let con := theConsole (run_all tokenize lines w) in
  cmd_log con
    = (rev (List.filter nonempty lines) ++ cmd_log (theConsole w))%list /\
  (List.filter nonempty lines <> [] ->
   prevCommand 0 con = List.last (List.filter nonempty lines) EmptyString).
Proof.
  cbn zeta. split; [apply run_all_cmd_log |].
  intros Hne. unfold prevCommand. rewrite run_all_cmd_log.
  destruct (List.filter nonempty lines) as [| x l] using rev_ind; [contradiction |].
  rewrite List.last_last, rev_app_distr. reflexivity.
Qed.

(** X10: [lastCommand] gives the oldest entry of the history: after a
    session on a console with an empty history it is the first line that was
    not empty (the empty string when there is none), and on a console with a
    history no session changes its result. *)
Theorem lastCommand_after_session (lines : list string) w :
  lastCommand (theConsole (run_all tokenize lines w))
  = match cmd_log (theConsole w) with
    | [] => hd EmptyString (List.filter nonempty lines)
    | _ :: _ => lastCommand (theConsole w)
    end.
Proof.
  assert (Hlast : forall con : Console builtin,
            lastCommand con = List.last (cmd_log con) EmptyString).
  { intros con. unfold lastCommand. destruct (cmd_log con); reflexivity. }
  rewrite !Hlast, run_all_cmd_log.
  destruct (cmd_log (theConsole w)) as [| x h].
  - rewrite app_nil_r.
    destruct (List.filter nonempty lines) as [| y l]; [reflexivity |].
    cbn [rev hd]. apply List.last_last.
  - generalize (rev (List.filter nonempty lines)). intros l.
    induction l as [| y l IH]; [reflexivity |].
    rewrite <- IH. destruct l; reflexivity.
Qed.

(** X11: after a line that is not empty, [prevCommand] with index 0 gives
    that line and every earlier command is one index further. *)
Theorem prevCommand_after_line line w (i : Z) :
  line <> EmptyString ->
  0 <= i < CLib.INT_MAX ->
  let con' := theConsole (execute run_builtin tokenize line w) in
  prevCommand 0 con' = line /\
  prevCommand (i + 1) con' = prevCommand i (theConsole w).
Proof.
  intros Hne Hi con'. subst con'.
  destruct (run_fields line w Hne) as (ms & _ & _ & H3 & _).
  unfold prevCommand. rewrite H3. split; [reflexivity |].
  unfold CLib.INT_MAX in Hi. unfold to_size_t.
  rewrite !Z.mod_small by lia.
  replace (Z.to_nat (i + 1)) with (S (Z.to_nat i)) by lia.
  cbn [length lookup list_lookup].
  destruct (Z.ltb_spec (i + 1) 0); [lia |].
  destruct (Z.ltb_spec i 0); [lia |].
  cbn [orb].
  destruct (Z.leb_spec (Z.of_nat (S (length (cmd_log (theConsole w))))) (i + 1));
    destruct (Z.leb_spec (Z.of_nat (length (cmd_log (theConsole w)))) i);
    try lia; reflexivity.
Qed.

(** The loop of [cmdlist] on a registry below [INT_MAX] commands logs the
    quoted name of each command, in the order of the registry. *)
Lemma cmdlist_loop_all (pre l : list (ConsoleCommand builtin)) w :
  commands (theConsole w) = (pre ++ l)%list ->
  fold_left
    (fun w a =>
       match command a (theConsole w) with
       | Some c => logMessage (dquote ++ name c ++ dquote) w
       | None => w
       end) (seq (length pre) (length l)) w
  = log_all (map (fun c => quoted (name c)) l) w.
Proof.
  revert pre w. induction l as [| x l IH]; intros pre w Hc; [reflexivity |].
  cbn [length seq fold_left map].
  assert (Hx : command (length pre) (theConsole w) = Some x).
  { unfold command. rewrite Hc.
    destruct (Nat.ltb_spec (length pre) (length (pre ++ x :: l)));
      [| rewrite length_app in *; cbn in *; lia].
    apply list_lookup_middle. reflexivity. }
  rewrite Hx.
  change (log_all (quoted (name x) :: map (fun c => quoted (name c)) l) w)
    with (log_all (map (fun c => quoted (name c)) l)
            (logMessage (quoted (name x)) w)).
  replace (S (length pre)) with (length (pre ++ [x])%list)
    by (rewrite length_app; cbn; lia).
  apply IH. transitivity (commands (theConsole w)); [reflexivity |].
  rewrite Hc, <- app_assoc. reflexivity.
Qed.

Lemma terminated_quoted (text : string) : terminated (quoted text) = entry (quoted text).
Proof.
  apply (terminated_entry _ (ascii_of_nat 34)); [| discriminate].
  unfold quoted. rewrite !Last_append. reflexivity.
Qed.

(** The state in which a handler starts, and the transcript when it is
    done, for a line that reaches the handler [f]. *)
Lemma run_handler line w (c : ConsoleCommand builtin) :
  line <> EmptyString ->
  find_command (cmd_name_of tokenize line) (commands (theConsole w)) = Some c ->
  min_args c <= Z.of_nat (length (args_of tokenize line)) ->
  execute run_builtin tokenize line w
  = set_probes
      (probes w ++ [CallHandler (commandFunc c) (args_of tokenize line)])
      (run_builtin (commandFunc c) (args_of tokenize line) (entered line w)).
Proof.
  intros Hne Hf Hmin. rewrite (execute_nonempty _ _ _ _ Hne), Hf.
  unfold ConsoleCommand_execute.
  destruct (Z.leb_spec (min_args c) (Z.of_nat (length (args_of tokenize line))));
    [reflexivity | lia].
Qed.

(** X12: [echo] logs its first argument and nothing else: the arguments
    after the first leave no trace in the transcript, and no variable
    changes. *)
Theorem echo_logs_first_argument line w (c : ConsoleCommand builtin)
    (arg0 : string) (rest : list string) :
  line <> EmptyString ->
  find_command (cmd_name_of tokenize line) (commands (theConsole w)) = Some c ->
  commandFunc c = c_echo ->
  args_of tokenize line = arg0 :: rest ->
  min_args c <= Z.of_nat (length (arg0 :: rest)) ->
  let w' := execute run_builtin tokenize line w in
  log (theConsole w') = (log (theConsole w) ++ [terminated arg0])%list /\
  lastLogLine (theConsole w') = terminated arg0 /\
  cvars w' = cvars w.
Proof.
  intros Hne Hf Hc Ha Hmin w'. subst w'.
  rewrite (run_handler line w c Hne Hf) by (rewrite Ha; exact Hmin).
  rewrite Hc, Ha. cbn [run_builtin].
  repeat split.
  cbn [theConsole set_probes logMessage announce set_console].
  apply lastLogLine_snoc.
Qed.

(** X13: [cmdlist] logs the number of commands and then the name of every
    command of the registry in double quotes, each once, in the order of
    the registry. *)
Theorem cmdlist_lists_registry line w (c : ConsoleCommand builtin) :
  line <> EmptyString ->
  find_command (cmd_name_of tokenize line) (commands (theConsole w)) = Some c ->
  commandFunc c = c_cmdlist ->
  min_args c <= Z.of_nat (length (args_of tokenize line)) ->
  Z.of_nat (length (commands (theConsole w))) <= CLib.INT_MAX ->
  log (theConsole (execute run_builtin tokenize line w))
  = (log (theConsole w)
     ++ entry (CLib.fmt_d (Z.of_nat (length (commands (theConsole w))))
               ++ " Valid Commands:")
        :: map (fun c => entry (quoted (name c))) (commands (theConsole w)))%list.
Proof.
  intros Hne Hf Hc Hmin Hlen.
  rewrite (run_handler line w c Hne Hf Hmin), Hc. cbn [run_builtin].
  change (numCommands (theConsole (entered line w)))
    with (CLib.to_int (Z.of_nat (length (commands (theConsole w))))).
  rewrite CLibFacts.to_int_in_range
    by (unfold CLib.INT_MIN, CLib.INT_MAX in *; lia).
  rewrite Nat2Z.id.
  set (header := CLib.fmt_d _ ++ " Valid Commands:").
  rewrite (cmdlist_loop_all [] (commands (theConsole w))) by reflexivity.
  change (log_all ?ms (logMessage header ?x)) with (log_all (header :: ms) x).
  cbn [theConsole set_probes].
  destruct (log_all_fields
              (header :: map (fun c0 => quoted (name c0)) (commands (theConsole w)))
              (entered line w)) as (H1 & _).
  rewrite H1. cbn [map]. f_equal. f_equal.
  - apply (terminated_entry _ ":"%char); [| discriminate].
    unfold header. rewrite Last_append. reflexivity.
  - rewrite map_map. apply map_ext. intros c0. apply terminated_quoted.
Qed.

(** X14: [cvarlist] logs the number of names and then the names it got from
    the variable store in ascending ordinal order, each once. *)
Theorem cvarlist_lists_sorted line w (c : ConsoleCommand builtin) :
  line <> EmptyString ->
  find_command (cmd_name_of tokenize line) (commands (theConsole w)) = Some c ->
  commandFunc c = c_cvarlist ->
  min_args c <= Z.of_nat (length (args_of tokenize line)) ->
  exists names,
    Permutation (get_cvar_list (cvars w)) names /\
    StronglySorted (before String.ltb) names /\
    log (theConsole (execute run_builtin tokenize line w))
    = (log (theConsole w)
       ++ entry (CLib.fmt_d (CLib.to_int (Z.of_nat (length names))) ++ " CVars:")
          :: map terminated names)%list.
Proof.
  intros Hne Hf Hc Hmin.
  exists (sort String.ltb (get_cvar_list (cvars w))).
  split; [apply sort_perm |].
  split; [apply sort_sorted; [exact ltb_asym | intros x y z; apply ltb_false_trans] |].
  rewrite (run_handler line w c Hne Hf Hmin), Hc. cbn [run_builtin].
  change (cvars (entered line w)) with (cvars w).
  set (names := sort String.ltb (get_cvar_list (cvars w))).
  set (header := CLib.fmt_d _ ++ " CVars:").
  change (fold_left ?f names (logMessage header ?x))
    with (log_all (header :: names) x).
  cbn [theConsole set_probes].
  destruct (log_all_fields (header :: names) (entered line w)) as (H1 & _).
  rewrite H1. cbn [map]. f_equal. f_equal.
  apply (terminated_entry _ ":"%char); [| discriminate].
  unfold header. rewrite Last_append. reflexivity.
Qed.

End ProgramFacts.

(** ** More on the dispatcher, for any handlers and any tokenizer *)


Section MoreDispatchFacts.

Context {fptr : Type}.
Variable call : fptr -> list string -> World fptr -> World fptr.
Variable tokenize : string -> list string.

Implicit Types (w : World fptr).

Lemma read_args_spec (arg : string) (tz : Tokenizer) :
  Forall (fun a => a <> EmptyString) (read_args arg tz) /\
  exists rest,
    arg :: tz = (read_args arg tz ++ rest)%list /\
    (rest = [] \/ exists r, rest = EmptyString :: r).
Proof.
  revert arg. induction tz as [| t tz IH]; intros arg.
  - destruct arg as [| a s]; cbn [read_args].
    + split; [constructor |]. exists [EmptyString]. split; [reflexivity |].
      right. exists []. reflexivity.
    + split; [repeat constructor; discriminate |].
      exists []. split; [reflexivity | left; reflexivity].
  - destruct arg as [| a s]; cbn [read_args].
    + split; [constructor |]. exists (EmptyString :: t :: tz).
      split; [reflexivity |]. right. eexists. reflexivity.
    + destruct (IH t) as (HF & rest & Heq & Hrest).
      split; [constructor; [discriminate | exact HF] |].
      exists rest. split; [| exact Hrest].
      cbn [app]. rewrite <- Heq. reflexivity.
Qed.

(** X15: the command name is the first token (the empty string when there is
    none), and the arguments are the tokens after it up to the first empty
    token, which is left out with all that follows it: no argument is ever
    the empty string. *)
Theorem args_stop_at_empty_token (command : string) :
  cmd_name_of tokenize command = hd EmptyString (tokenize command) /\
  Forall (fun a => a <> EmptyString) (args_of tokenize command) /\
  exists rest,
    tl (tokenize command) = (args_of tokenize command ++ rest)%list /\
    (rest = [] \/ exists r, rest = EmptyString :: r).
Proof.
  unfold cmd_name_of, args_of, openString.
  destruct (tokenize command) as [| t [| a tz]]; cbn [getToken fst hd tl].
  - split; [reflexivity |]. split; [constructor |].
    exists []. split; [reflexivity | left; reflexivity].
  - split; [reflexivity |]. split; [constructor |].
    exists []. split; [reflexivity | left; reflexivity].
  - split; [reflexivity |]. apply read_args_spec.
Qed.


(** X17: a line that is not empty but has no token (white space only, for
    a tokenizer that splits at white space) still goes into the history, and
    is reported as the unknown command with the empty name when neither a
    command nor a variable has the empty name. *)
Theorem tokenless_line (command : string) w :
  command <> EmptyString ->
  tokenize command = [] ->
  find_command EmptyString (commands (theConsole w)) = None ->
  cvars w !! EmptyString = None ->
  let w' := execute call tokenize command w in
  log (theConsole w')
    = (log (theConsole w) ++ [entry (unknown_line EmptyString)])%list /\
  cmd_log (theConsole w') = command :: cmd_log (theConsole w) /\
  cvars w' = cvars w.
Proof.
  intros Hne Ht Hf Hv w'. subst w'.
  assert (Hn : cmd_name_of tokenize command = EmptyString).
  { unfold cmd_name_of, openString. rewrite Ht. reflexivity. }
  rewrite (execute_nonempty _ _ _ _ Hne), Hn, Hf, Hv.
  rewrite (logMessage_entry _ _ _ (Last_unknown_line _)) by discriminate.
  repeat split.
Qed.

End MoreDispatchFacts.

(** ** More on the registry *)

Section MoreRegistryFacts.

Context {fptr : Type}.
Implicit Types (con : Console fptr) (c : ConsoleCommand fptr)
  (cs : list (ConsoleCommand fptr)).

Lemma find_command_is_Some (n : string) cs :
  is_Some (find_command n cs) <-> exists c, c ∈ cs /\ name c = n.
Proof.
  split.
  - intros [c Hc]. exists c. destruct (find_command_Some _ _ _ Hc). auto.
  - intros (c & Hin & Hn).
    destruct (find_command n cs) as [c' |] eqn:E; [eexists; reflexivity |].
    destruct (find_command_None _ _ E c Hin Hn).
Qed.

(** X18: after [addCommand] the search by name finds a command exactly for
    the names it found one for before and for the name of the new command:
    a registration makes its command reachable and hides no other name. *)
Theorem addCommand_findable c con (n : string) :
  is_Some (find_command n (commands (addCommand c con)))
  <-> is_Some (find_command n (commands con)) \/ name c = n.
Proof.
  rewrite !find_command_is_Some. split.
  - intros (c' & Hin & Hn).
    rewrite <- addCommand_perm in Hin. apply elem_of_app in Hin as [Hin | Hin].
    + left. exists c'. auto.
    + right. apply list_elem_of_singleton in Hin. subst c'. exact Hn.
  - intros [(c' & Hin & Hn) | Hn].
    + exists c'. split; [| exact Hn]. rewrite <- addCommand_perm.
      apply elem_of_app. left. exact Hin.
    + exists c. split; [| exact Hn]. rewrite <- addCommand_perm.
      apply elem_of_app. right. constructor.
Qed.

(** X19: a command built under a name that no command has yet is the one
    the search finds under that name afterwards, with the handler it was
    given; the transcript, the history and the variables are as before. *)
Theorem constructor_registers (n : string) (f : fptr) (m : Z) (w : World fptr) :
  find_command n (commands (theConsole w)) = None ->
  let w' := ConsoleCommand_new n f m w in
  find_command n (commands (theConsole w'))
    = Some {| name := n; commandFunc := f; min_args := to_size_t m |} /\
  log (theConsole w') = log (theConsole w) /\
  cmd_log (theConsole w') = cmd_log (theConsole w) /\
  cvars w' = cvars w.
Proof.
  intros Hnone w'. subst w'. split; [| repeat split].
  set (c := {| name := n; commandFunc := f; min_args := to_size_t m |}).
  change (commands (theConsole (ConsoleCommand_new n f m w)))
    with (commands (addCommand c (theConsole w))).
  destruct (proj2 (addCommand_findable c (theConsole w) n) (or_intror eq_refl))
    as [c' Hc'].
  rewrite Hc'. f_equal.
  destruct (find_command_Some _ _ _ Hc') as [Hn Hin].
  rewrite <- addCommand_perm in Hin. apply elem_of_app in Hin as [Hin | Hin].
  - destruct (find_command_None _ _ Hnone c' Hin Hn).
  - apply list_elem_of_singleton in Hin. exact Hin.
Qed.

(** X20: registrations only add: after a sequence of them the registry has
    the commands it had and the new ones, each as often as it was
    registered, a repeated name included, and the count has grown by the
    number of registrations. *)
Theorem registration_keeps_every_command cs con :
  Permutation (commands con ++ cs) (commands (register_all cs con)) /\
  length (commands (register_all cs con))
    = (length (commands con) + length cs)%nat.
Proof.
  split; [apply register_all_perm |].
  rewrite <- (Permutation_length (register_all_perm cs con)).
  apply length_app.
Qed.

End MoreRegistryFacts.

(** ** Integer variables and text that is no number *)

(** X21: an Integer variable holds an [int] after every assignment, and the
    value is 0 when the text, after its leading white space, is empty or
    starts with a character that is neither a sign nor a digit. *)
Theorem assign_integer (f : N) (i : Z) (arg : string) :
  exists v,
    assign (CIntCVar f i) arg = CIntCVar f v /\
    CLib.INT_MIN <= v <= CLib.INT_MAX /\
    (match CLib.skip_space arg with
     | EmptyString => True
     | String c _ =>
         Ascii.eqb c "-" = false /\ Ascii.eqb c "+" = false /\
         CLib.digit_of c = None
     end -> v = 0).
Proof.
  exists (CLib.atoi arg). split; [reflexivity |]. split.
  - unfold CLib.atoi, CLib.to_int, CLib.INT_MIN, CLib.INT_MAX.
    pose proof (Z.mod_pos_bound (CLib.strtol arg + 2 ^ 31) (2 ^ 32)). lia.
  - unfold CLib.atoi, CLib.strtol.
    destruct (CLib.skip_space arg) as [| c s]; [reflexivity |].
    intros (Hm & Hp & Hd). unfold CLib.read_sign. rewrite Hm, Hp.
    cbn [CLib.read_digits]. rewrite Hd. reflexivity.
Qed.

(** ** The further properties on the program's console *)

Lemma logMessage_entry_terminated_witness :
  let w := logMessage (fptr := builtin) "hello" (startup sample_vars) in
  lastLogLine (theConsole w) = entry "hello" /\
  log (theConsole w) = [entry "hello"].
Proof.
  intros w.
  destruct (logMessage_entry_terminated "hello" (startup sample_vars))
    as (Hlog & _ & _ & Hadd); [discriminate |].
  split; [apply Hadd; discriminate |].
  unfold w. rewrite Hlog, Hadd; [reflexivity | discriminate].
Defined.

Lemma logMessage_newline_once_witness :
  logMessage (fptr := builtin) (entry "hello") (startup sample_vars)
  = logMessage "hello" (startup sample_vars).
Proof.
  apply (logMessage_newline_once "hello" (startup sample_vars)); discriminate.
Defined.

Lemma prevCommand_out_of_range_witness :
  prevCommand (-1) (theConsole (run "echo one" (startup sample_vars)))
  = EmptyString.
Proof.
  apply (prevCommand_out_of_range (-1)). left. reflexivity.
Defined.

Lemma run_changes_one_variable_at_most_witness :
  cvars (run "v 1" (startup sample_vars)) !! "n" = Some (CIntCVar 0 7).
Proof.
  unfold run.
  rewrite (proj1 (run_changes_one_variable_at_most tokens "v 1"
                    (startup sample_vars)) "n").
  - vm_compute. reflexivity.
  - vm_compute. discriminate.
Defined.

Lemma run_all_history_witness :
  prevCommand 0
    (theConsole (run_all tokens ["echo one"; EmptyString; "v"] (startup sample_vars)))
  = "v".
Proof.
  apply (proj2 (run_all_history tokens ["echo one"; EmptyString; "v"]
                  (startup sample_vars))).
  discriminate.
Defined.

Lemma prevCommand_after_line_witness :
  let w := run "echo one" (startup sample_vars) in
  prevCommand 0 (theConsole (run "echo two" w)) = "echo two" /\
  prevCommand 1 (theConsole (run "echo two" w)) = prevCommand 0 (theConsole w).
Proof.
  intros w.
  apply (prevCommand_after_line tokens "echo two" w 0); [discriminate |].
  unfold CLib.INT_MAX. lia.
Defined.

Lemma echo_logs_first_argument_witness :
  let w := run "echo hello world" (startup sample_vars) in
  log (theConsole w) = [entry "hello"].
Proof.
  intros w.
  destruct (echo_logs_first_argument tokens "echo hello world"
              (startup sample_vars) echo "hello" ["world"]) as (H & _);
    [discriminate | reflexivity | reflexivity | reflexivity | | exact H].
  vm_compute. discriminate.
Defined.

Lemma cmdlist_lists_registry_witness :
  log (theConsole (run "cmdlist" (startup sample_vars)))
  = [entry "3 Valid Commands:"; entry (quoted "cmdlist");
     entry (quoted "cvarlist"); entry (quoted "echo")].
Proof.
  apply (cmdlist_lists_registry tokens "cmdlist" (startup sample_vars) cmdlist);
    [discriminate | reflexivity | reflexivity | | ].
  - vm_compute. discriminate.
  - vm_compute. discriminate.
Defined.

Lemma cvarlist_lists_sorted_witness :
  exists names,
    Permutation (get_cvar_list sample_vars) names /\
    StronglySorted (before String.ltb) names /\
    log (theConsole (run "cvarlist" (startup sample_vars)))
    = entry (CLib.fmt_d (CLib.to_int (Z.of_nat (length names))) ++ " CVars:")
      :: map terminated names.
Proof.
  apply (cvarlist_lists_sorted tokens "cvarlist" (startup sample_vars) cvarlist);
    [discriminate | reflexivity | reflexivity | ].
  vm_compute. discriminate.
Defined.


Lemma tokenless_line_witness :
  let w := run "  " (startup sample_vars) in
  log (theConsole w) = [entry (unknown_line EmptyString)] /\
  cmd_log (theConsole w) = ["  "].
Proof.
  intros w.
  destruct (tokenless_line run_builtin tokens "  " (startup sample_vars))
    as (Hl & Hh & _);
    [discriminate | reflexivity | reflexivity | vm_compute; reflexivity |].
  split; [exact Hl | exact Hh].
Defined.

Lemma constructor_registers_witness :
  find_command "echo"
    (commands (theConsole (ConsoleCommand_new "echo" c_echo 1 (World_new sample_vars))))
  = Some echo.
Proof.
  apply (constructor_registers "echo" c_echo 1 (World_new sample_vars)).
  reflexivity.
Defined.

Lemma assign_integer_witness :
  assign (CIntCVar 0 7) "abc" = CIntCVar 0 0.
Proof.
  destruct (assign_integer 0 7 "abc") as (v & Hv & _ & Hz).
  rewrite Hv, Hz; [reflexivity |].
  repeat split.
Defined.

Lemma registry_order_independent_witness :
  map name (commands (register_all [echo; cmdlist] Console_new))
  = map name (commands (register_all [cmdlist; echo] Console_new)).
Proof.
  apply (registry_order_independent [echo; cmdlist] [cmdlist; echo] Console_new).
  - reflexivity.
  - apply perm_swap.
Defined.

(** A NaN is read and printed with its sign. *)
Example negative_nan_session :
  let w1 := run "x -nan" (startup sample_vars) in
  let w2 := run "x" w1 in
  let w3 := run "x nan" w2 in
  cvars w1 !! "x" = Some (CFloatCVar 0 NegNaN) /\
  lastLogLine (theConsole w1) = entry (cvar_line "x" "-nan") /\
  cvars w2 !! "x" = Some (CFloatCVar 0 NegNaN) /\
  lastLogLine (theConsole w2) = entry (cvar_line "x" "-nan") /\
  lastLogLine (theConsole w3) = entry (cvar_line "x" "nan").
Proof. vm_compute. repeat split. Qed.
